(** * StructReader: a shallow embedding of [Struct_Reader.py]

    The development follows the source file top to bottom: the type tags,
    the descriptor objects ([BaseType]), the builders ([_TypeFactory]), the
    schema compiler ([CompileType], [CompileStruct]), the stream interpreter
    ([StructObj] with its handlers and [Parse]) and the entry point
    ([ParseStruct]).  Python integers are [Z], byte strings are
    [list byte], dictionaries keyed by field names are [gmap string _]
    where only lookup and update matter and association lists where the
    order of the fields matters. *)

From Stdlib Require Import ZArith Wf_Z Lia List Bool.
From Stdlib Require Import Strings.String Strings.Ascii Strings.Byte.
From stdpp Require Import base option list strings gmap.
From Equations Require Import Equations.

Import ListNotations.
Open Scope string_scope.
Open Scope Z_scope.

Set Warnings "-register-all".

(** ** Type tags (source lines 5-21) *)

Definition INT     : Z := 1.
Definition FLOAT   : Z := 2.
Definition UVARINT : Z := 3.
Definition STR     : Z := 4.
Definition BYTES   : Z := 5.
Definition BYTES2  : Z := 6.
Definition LIST    : Z := 7.
Definition STRUCT  : Z := 8.
Definition CONST   : Z := 9.
Definition VAR     : Z := 10.
Definition MATCH   : Z := 11.
Definition FUNC    : Z := 12.
Definition SEEK    : Z := 13.
Definition POS     : Z := 14.
Definition PEEK    : Z := 15.
Definition GROUP   : Z := 16.
Definition BOOL    : Z := 17.

(** ** Python data *)

(** The built-in exception classes the program can meet.  [struct_error]
    is [struct.error]; [UserException] stands for whatever a transform
    callable of a [Func] field raises. *)
Inductive exc : Type :=
| EOFError
| ValueError
| TypeError
| KeyError
| IndexError
| AttributeError
| AssertionError
| OverflowError
| RecursionError
| LookupError
| UnicodeDecodeError
| struct_error
| UserException (name : string).

(** Results of code that may raise. *)
Inductive res (E A : Type) : Type :=
| Ok (a : A)
| Raise (e : E).
Arguments Ok {E A} a.
Arguments Raise {E A} e.

Definition res_bind {E A B} (m : res E A) (k : A -> res E B) : res E B :=
  match m with
  | Ok a => k a
  | Raise e => Raise e
  end.

Declare Scope res_scope.
Delimit Scope res_scope with res.
Notation "x <- m ;; k" := (res_bind m (fun x => k))
  (at level 100, m at next level, right associativity) : res_scope.

(** Decoded data: what the handlers return and what the binding context
    holds.  A Python [str] is kept as the bytes of its UTF-8 form, which is
    how a string literal is stored here.  A float is kept as the pair of its
    IEEE-754 width and bit pattern: [VFloat 32 w] is the binary32 datum whose
    encoding is the 32-bit word [w].  [VObj] is an instance of the class
    [Struct] with its attributes in the order they were set, [VDict] a
    Python dict with string keys in insertion order. *)
Inductive value : Type :=
| VNone
| VInt (z : Z)
| VBool (b : bool)
| VStr (s : string)
| VBytes (bs : list byte)
| VFloat (width : Z) (bits : Z)
| VList (l : list value)
| VObj (attrs : list (string * value))
| VDict (items : list (string * value)).

(** A transform callable of a [Func] field, applied to its positional
    arguments. *)
Definition callable : Type := list value -> res exc value.

(** Schema-level objects: what the user writes in a schema class and what
    [BaseType] stores in its slots.  [PClass] is a class used as a schema,
    given by the items of its [__dict__] in order. *)
Inductive pyobj : Type :=
| PNone
| PInt (z : Z)
| PBool (b : bool)
| PStr (s : string)
| PTuple (xs : list pyobj)
| PList (xs : list pyobj)
| PCallable (f : callable)
| PClass (dict : list (string * pyobj))
| PBase (b : BaseType)

(** An instance of [BaseType] after [__init__] (source lines 26-59): one
    constructor for each branch of [__init__], carrying the slots that the
    branch sets; [B_plain] is an instance with only [Type] set. *)
with BaseType : Type :=
| B_INT (Bits Order Sign : pyobj)
| B_FLOAT (Bits Order Sign : pyobj)
| B_STR (Len Encoding : pyobj)
| B_BYTES (Len : pyobj)
| B_VAR (Name : pyobj)
| B_LIST (Count Value : pyobj)
| B_GROUP (Params : list pyobj)
| B_FUNC (BFunc : pyobj) (Params : pyobj)
| B_MATCH (BFunc : pyobj) (Results : pyobj)
| B_SEEK (Offset Mode : pyobj)
| B_PEEK (Value : pyobj)
| B_plain (typeIndex : Z).

(** [v.Type] *)
Definition BaseType_Type (b : BaseType) : Z :=
  match b with
  | B_INT _ _ _ => INT
  | B_FLOAT _ _ _ => FLOAT
  | B_STR _ _ => STR
  | B_BYTES _ => BYTES
  | B_VAR _ => VAR
  | B_LIST _ _ => LIST
  | B_GROUP _ => GROUP
  | B_FUNC _ _ => FUNC
  | B_MATCH _ _ => MATCH
  | B_SEEK _ _ => SEEK
  | B_PEEK _ => PEEK
  | B_plain t => t
  end.

(** Truth value of an object, as [or], [if] and [bool()] use it. *)
Definition py_truth (o : pyobj) : bool :=
  match o with
  | PNone => false
  | PInt z => negb (z =? 0)
  | PBool b => b
  | PStr s => negb (String.eqb s "")
  | PTuple xs | PList xs => match xs with [] => false | _ => true end
  | PCallable _ | PClass _ | PBase _ => true
  end.

(** [a or b] *)
Definition py_or (a b : pyobj) : pyobj := if py_truth a then a else b.

(** The one-character strings of a string, as iterating or slicing a [str]
    gives them. *)
Fixpoint py_chars (s : string) : list pyobj :=
  match s with
  | EmptyString => []
  | String c s' => PStr (String c EmptyString) :: py_chars s'
  end.

(** The items of an iterable object; anything else is not iterable. *)
Definition py_iter (o : pyobj) : res exc (list pyobj) :=
  match o with
  | PTuple xs | PList xs => Ok xs
  | PStr s => Ok (py_chars s)
  | _ => Raise TypeError
  end.

(** [x1, ..., xn = value]: the iterable [value] must have exactly [n]
    items. *)
Definition py_unpack (n : nat) (value : pyobj) : res exc (list pyobj) :=
  (xs <- py_iter value ;;
   if Nat.eqb (length xs) n then Ok xs else Raise ValueError)%res.

(** [value[i]] for a constant index [i >= 0]. *)
Definition py_item (value : pyobj) (i : nat) : res exc pyobj :=
  match value with
  | PTuple xs | PList xs =>
      match nth_error xs i with Some x => Ok x | None => Raise IndexError end
  | PStr s =>
      match nth_error (py_chars s) i with Some x => Ok x | None => Raise IndexError end
  | _ => Raise TypeError
  end.

(** [value[1:]] *)
Definition py_slice_from1 (value : pyobj) : res exc pyobj :=
  match value with
  | PTuple xs => Ok (PTuple (tl xs))
  | PList xs => Ok (PList (tl xs))
  | PStr s => Ok (PStr (match s with EmptyString => "" | String _ s' => s' end))
  | _ => Raise TypeError
  end.

Definition is_tuple (o : pyobj) : bool :=
  match o with PTuple _ => true | _ => false end.

Definition is_list_or_tuple (o : pyobj) : bool :=
  match o with PTuple _ | PList _ => true | _ => false end.

(** [v in (0, 1, 2)]: equality with one of the three integers; [True] and
    [False] compare equal to 1 and 0. *)
Definition in_012 (v : pyobj) : bool :=
  match v with
  | PInt z => (z =? 0) || (z =? 1) || (z =? 2)
  | PBool _ => true
  | _ => false
  end.

(** ** [BaseType.__init__] (source lines 29-59) *)

(** The [GROUP] branch: a tuple becomes a list, a list is kept, anything
    else is wrapped in a one-element list. *)
Definition BaseType_init_GROUP (value : pyobj) : BaseType :=
  match value with
  | PTuple xs => B_GROUP xs
  | PList xs => B_GROUP xs
  | _ => B_GROUP [value]
  end.

(** The [FUNC] branch. *)
Definition BaseType_init_FUNC (value : pyobj) : res exc BaseType :=
  (v1 <- py_item value 1 ;;
   xs <- (if is_list_or_tuple v1 then py_unpack 2 value
          else (v0 <- py_item value 0 ;;
                rest <- py_slice_from1 value ;;
                Ok [v0; rest])) ;;
   match xs with
   | [bfunc; params] =>
       Ok (B_FUNC bfunc
             (match params with
              | PBase (B_GROUP _) => params
              | _ => PBase (BaseType_init_GROUP params)
              end))
   | _ => Raise ValueError
   end)%res.

Definition BaseType_init (typeIndex : Z) (value : pyobj) : res exc BaseType :=
  (if typeIndex =? INT then
     xs <- py_unpack 3 value ;;
     match xs with
     | [bits; order; sign] => Ok (B_INT bits order sign)
     | _ => Raise ValueError
     end
   else if typeIndex =? FLOAT then
     xs <- py_unpack 3 value ;;
     match xs with
     | [bits; order; sign] => Ok (B_FLOAT bits order sign)
     | _ => Raise ValueError
     end
   else if typeIndex =? STR then
     let value := if is_tuple value then value else PTuple [value; PNone] in
     xs <- py_unpack 2 value ;;
     match xs with
     | [len; encoding] => Ok (B_STR len encoding)
     | _ => Raise ValueError
     end
   else if typeIndex =? BYTES then Ok (B_BYTES value)
   else if typeIndex =? VAR then Ok (B_VAR value)
   else if typeIndex =? LIST then
     xs <- py_unpack 2 value ;;
     match xs with
     | [count; val] => Ok (B_LIST count val)
     | _ => Raise ValueError
     end
   else if typeIndex =? GROUP then Ok (BaseType_init_GROUP value)
   else if typeIndex =? FUNC then BaseType_init_FUNC value
   else if typeIndex =? MATCH then
     xs <- py_unpack 3 value ;;
     match xs with
     | [cond; params; results] =>
         bfunc <- BaseType_init_FUNC (PTuple [cond; params]) ;;
         Ok (B_MATCH (PBase bfunc) results)
     | _ => Raise ValueError
     end
   else if typeIndex =? SEEK then
     let value := if is_tuple value then value else PTuple [value; PInt 0] in
     offset <- py_item value 0 ;;
     v <- py_item value 1 ;;
     Ok (B_SEEK offset (if in_012 v then v else PInt 0))
   else if typeIndex =? PEEK then Ok (B_PEEK value)
   else Ok (B_plain typeIndex))%res.

(** ** [_TypeFactory] (source lines 61-99) *)

(** [s.startswith(p)] and [s.endswith(p)] *)
Definition startswith (s p : string) : bool := String.prefix p s.

Fixpoint endswith (s p : string) : bool :=
  String.eqb s p ||
  match s with
  | EmptyString => false
  | String _ s' => endswith s' p
  end.

(** A builder object.  [Type] is [None] when [__init__] took no branch and
    left the slot unset. *)
Record _TypeFactory : Type := mk_TypeFactory {
  Type_ : option Z;
  Params : list pyobj
}.

(** [_TypeFactory.__init__] *)
Definition TypeFactory_init (tName : string) : _TypeFactory :=
  if startswith tName "Int" || startswith tName "UInt" then
    mk_TypeFactory (Some INT)
      [ (if endswith tName "BE" then PStr "big"
         else if endswith tName "LE" then PStr "Little"
         else PNone);
        PBool (startswith tName "Int") ]
  else if startswith tName "Float" then
    mk_TypeFactory (Some FLOAT)
      [ (if endswith tName "BE" then PStr ">"
         else if endswith tName "LE" then PStr "<"
         else PNone) ]
  else if String.eqb tName "Str" then mk_TypeFactory (Some STR) []
  else if String.eqb tName "Bytes" then mk_TypeFactory (Some BYTES) []
  else if String.eqb tName "List" then mk_TypeFactory (Some LIST) []
  else if String.eqb tName "Match" then mk_TypeFactory (Some MATCH) []
  else if String.eqb tName "Func" then mk_TypeFactory (Some FUNC) []
  else if String.eqb tName "Group" then mk_TypeFactory (Some GROUP) []
  else if String.eqb tName "Seek" then mk_TypeFactory (Some SEEK) []
  else if String.eqb tName "Peek" then mk_TypeFactory (Some PEEK) []
  else if String.eqb tName "Var" then mk_TypeFactory (Some VAR) []
  else mk_TypeFactory None [].

(** [args // 8]: floor division, defined on integers ([bool] included). *)
Definition floordiv8 (args : pyobj) : res exc pyobj :=
  match args with
  | PInt z => Ok (PInt (z / 8))
  | PBool b => Ok (PInt ((if b then 1 else 0) / 8))
  | _ => Raise TypeError
  end.

(** Reading [self.Type]: when the slot is unset the lookup falls back to
    [__getattr__], which reads [self.Type] again, without end. *)
Definition TypeFactory_Type (self : _TypeFactory) : res exc Z :=
  match Type_ self with
  | Some t => Ok t
  | None => Raise RecursionError
  end.

(** [_TypeFactory.__getitem__]: [Int[32]], [Str[...]], ... *)
Definition TypeFactory_getitem (self : _TypeFactory) (args : pyobj) : res exc BaseType :=
  (args <- match Params self with
           | [] => Ok args
           | p => a <- floordiv8 args ;; Ok (PTuple (a :: p))
           end ;;
   t <- TypeFactory_Type self ;;
   BaseType_init t args)%res.


(** The module-level builders (source lines 262-282). *)
Definition Int     := TypeFactory_init "Int".
Definition UInt    := TypeFactory_init "UInt".
Definition IntBE   := TypeFactory_init "IntBE".
Definition IntLE   := TypeFactory_init "IntLE".
Definition UIntBE  := TypeFactory_init "UIntBE".
Definition UIntLE  := TypeFactory_init "UIntLE".
Definition Float   := TypeFactory_init "Float".
Definition FloatBE := TypeFactory_init "FloatBE".
Definition FloatLE := TypeFactory_init "FloatLE".
Definition Str     := TypeFactory_init "Str".
Definition Bytes   := TypeFactory_init "Bytes".
Definition List_   := TypeFactory_init "List".
Definition Match   := TypeFactory_init "Match".
Definition Seek    := TypeFactory_init "Seek".
Definition Peek    := TypeFactory_init "Peek".
Definition Func    := TypeFactory_init "Func".
Definition Group   := TypeFactory_init "Group".
Definition Uvarint := BaseType_init UVARINT PNone.
Definition Pos     := BaseType_init POS PNone.
Definition Bool_   := BaseType_init BOOL PNone.

(** ** Canonical nodes: the tuples that [CompileType] returns

    One constructor for each shape of tuple, with the tag first in the
    source: [N_INT size signed order] is [(INT, size, signed, order)].
    Slots that the compiler copies from the descriptor keep whatever object
    the descriptor held.  [N_None] is the [None] that [CompileType] returns
    for a [BaseType] whose tag has no branch. *)
Inductive node : Type :=
| N_INT (size signed order : pyobj)
| N_FLOAT (size sign order : pyobj)
| N_UVARINT
| N_POS
| N_BOOL
| N_SEEK (pos : node) (mode : pyobj)
| N_PEEK (v : node)
| N_GROUP (cParams : list node)
| N_FUNC (func : pyobj) (cParams : node)
| N_MATCH (cond : node) (cresults : list node)
| N_BYTES (lenParams : node)
| N_BYTES2 (lenParams : node)
| N_STR (lenParams : node) (encoding : pyobj)
| N_LIST (count : node) (value_ : node)
| N_CONST (number : value)
| N_STRUCT (struct : list (string * node))
| N_VAR (name : pyobj)
| N_None.

(** ** The schema compiler (source lines 101-141) *)

Section MapM.
Context {E A B : Type} (f : A -> res E B).

(** A list comprehension whose body may raise: left to right, stopping
    at the first exception. *)
Fixpoint mapM (l : list A) : res E (list B) :=
  match l with
  | [] => Ok []
  | x :: l' => (y <- f x ;; ys <- mapM l' ;; Ok (y :: ys))%res
  end.
End MapM.

(** A field name of the form [__x__] is skipped by [CompileStruct]. *)
Definition is_dunder (n : string) : bool := startswith n "__" && endswith n "__".

Section CompileItems.
Context (compile : pyobj -> res exc node).

(** The dict comprehension of [CompileStruct] over the items of
    [cls.__dict__]. *)
Fixpoint CompileStruct_items (dict : list (string * pyobj)) : res exc (list (string * node)) :=
  match dict with
  | [] => Ok []
  | (n, v) :: rest =>
      if is_dunder n then CompileStruct_items rest
      else (c <- compile v ;; cs <- CompileStruct_items rest ;; Ok ((n, c) :: cs))%res
  end.
End CompileItems.

Fixpoint CompileType (v : pyobj) (order order2 encoding : string) (bytesToHex : bool)
  {struct v} : res exc node :=
  let rec := fun v' => CompileType v' order order2 encoding bytesToHex in
  (match v with
   | PBase b =>
       match b with
       | B_VAR name => Ok (N_VAR name)
       | B_INT bits ord sign => Ok (N_INT bits sign (py_or ord (PStr order)))
       | B_FLOAT bits ord sign => Ok (N_FLOAT bits sign (py_or ord (PStr order2)))
       | B_plain t =>
           if t =? UVARINT then Ok N_UVARINT
           else if t =? POS then Ok N_POS
           else if t =? BOOL then Ok N_BOOL
           else Ok N_None
       | B_SEEK offset mode => o <- rec offset ;; Ok (N_SEEK o mode)
       | B_PEEK val => c <- rec val ;; Ok (N_PEEK c)
       | B_GROUP params => cs <- mapM rec params ;; Ok (N_GROUP cs)
       | B_FUNC bfunc params => c <- rec params ;; Ok (N_FUNC bfunc c)
       | B_MATCH bfunc results =>
           c <- rec bfunc ;;
           rs <- match results with
                 | PTuple xs | PList xs => mapM rec xs
                 | PStr s => Ok (map (fun c => N_CONST (VStr (String c EmptyString))) (list_ascii_of_string s))
                 | _ => Raise TypeError
                 end ;;
           Ok (N_MATCH c rs)
       | B_BYTES len => c <- rec len ;; Ok (if bytesToHex then N_BYTES2 c else N_BYTES c)
       | B_STR len enc => c <- rec len ;; Ok (N_STR c (py_or enc (PStr encoding)))
       | B_LIST count val => c <- rec count ;; e <- rec val ;; Ok (N_LIST c e)
       end
   | PInt z => Ok (N_CONST (VInt z))
   | PBool b => Ok (N_CONST (VBool b))
   | PStr s => Ok (N_CONST (VStr s))
   | PClass dict => s <- CompileStruct_items rec dict ;; Ok (N_STRUCT s)
   | _ => Raise TypeError
   end)%res.

(** [CompileStruct(cls, order, encoding, order2, bytesToHex)]; [cls] is
    given by the items of its [__dict__]. *)
Definition CompileStruct (cls : list (string * pyobj)) (order encoding : string)
  (order2 : option string) (bytesToHex : bool) : res exc (list (string * node)) :=
  let order2 := match order2 with
                | None => if String.eqb order "big" then ">" else "<"
                | Some o => o
                end in
  CompileStruct_items (fun v => CompileType v order order2 encoding bytesToHex) cls.

(** ** The Python library the interpreter calls

    These are models of CPython built-ins, not code of the repository. *)

Definition byte_to_Z (b : byte) : Z := Z.of_N (Byte.to_N b).

(** An argument converted to a C [Py_ssize_t] (64 bits). *)
Definition as_ssize_t (z : Z) : res exc Z :=
  if (- 2 ^ 63 <=? z) && (z <? 2 ^ 63) then Ok z else Raise OverflowError.

(** An argument converted to a C [int] (32 bits). *)
Definition as_c_int (z : Z) : res exc Z :=
  if (- 2 ^ 31 <=? z) && (z <? 2 ^ 31) then Ok z else Raise OverflowError.

(** An object used where an integer is required ([__index__]). *)
Definition value_index (v : value) : res exc Z :=
  match v with
  | VInt z => Ok z
  | VBool b => Ok (if b then 1 else 0)
  | _ => Raise TypeError
  end.

Definition pyobj_index (o : pyobj) : res exc Z :=
  match o with
  | PInt z => Ok z
  | PBool b => Ok (if b then 1 else 0)
  | _ => Raise TypeError
  end.

(** *** [io.BytesIO]: the seekable byte source *)

Record BytesIO : Type := mkBytesIO {
  buf : list byte;
  pos : nat
}.

(** [r.read(size)] with [size] already converted; [None] and negative
    sizes read up to the end.  Fewer bytes than asked are returned at the
    end of the buffer. *)
Definition BytesIO_read (r : BytesIO) (size : option Z) : list byte * BytesIO :=
  let rest := drop (pos r) (buf r) in
  let n := match size with
           | None => length rest
           | Some z => if z <? 0 then length rest else Nat.min (Z.to_nat z) (length rest)
           end in
  (take n rest, mkBytesIO (buf r) (pos r + n)).

(** [r.tell()] *)
Definition BytesIO_tell (r : BytesIO) : Z := Z.of_nat (pos r).

(** [r.seek(offset, whence)] *)
Definition BytesIO_seek (r : BytesIO) (offset whence : Z) : res exc BytesIO :=
  if (offset <? 0) && (whence =? 0) then Raise ValueError
  else if whence =? 0 then Ok (mkBytesIO (buf r) (Z.to_nat offset))
  else if whence =? 1 then
    Ok (mkBytesIO (buf r) (Z.to_nat (Z.max 0 (Z.of_nat (pos r) + offset))))
  else if whence =? 2 then
    Ok (mkBytesIO (buf r) (Z.to_nat (Z.max 0 (Z.of_nat (length (buf r)) + offset))))
  else Raise ValueError.

(** *** [int.from_bytes], after the equivalent code of the Python
    documentation *)

(** [sum(b << i*8 for i, b in enumerate(little_ordered))], from index [i] *)
Fixpoint sum_shifted (little_ordered : list byte) (i : Z) : Z :=
  match little_ordered with
  | [] => 0
  | b :: rest => Z.shiftl (byte_to_Z b) (i * 8) + sum_shifted rest (i + 1)
  end.

Definition int_from_bytes (bytes : list byte) (byteorder : pyobj) (signed : bool) : res exc Z :=
  match byteorder with
  | PStr s =>
      (little_ordered <-
         (if String.eqb s "little" then Ok bytes
          else if String.eqb s "big" then Ok (rev bytes)
          else Raise ValueError) ;;
       let n := sum_shifted little_ordered 0 in
       Ok (if signed &&
              match last little_ordered with
              | Some b => negb (Z.land (byte_to_Z b) 128 =? 0)
              | None => false
              end
           then n - Z.shiftl 1 (8 * Z.of_nat (length little_ordered))
           else n))%res
  | _ => Raise TypeError
  end.

(** *** [bytes.hex] *)

Definition hex_digit (n : Z) : ascii :=
  match String.get (Z.to_nat n) "0123456789abcdef" with
  | Some c => c
  | None => "0"%char
  end.

Fixpoint bytes_hex (bs : list byte) : string :=
  match bs with
  | [] => EmptyString
  | b :: rest =>
      String (hex_digit (Z.shiftr (byte_to_Z b) 4))
        (String (hex_digit (Z.land (byte_to_Z b) 15)) (bytes_hex rest))
  end.

(** *** [bytes.decode]

    Three codecs are modelled, under their usual names: UTF-8, ASCII and
    Latin-1.  Any other name is treated as an unknown codec. *)

Inductive codec : Type := UTF_8 | ASCII | LATIN_1.

Definition normalize_char (c : ascii) : ascii :=
  let n := nat_of_ascii c in
  if (Nat.leb 65 n && Nat.leb n 90)%bool then ascii_of_nat (n + 32)
  else if (Nat.eqb n 45 || Nat.eqb n 32)%bool then "_"%char
  else c.

Fixpoint normalize_encoding (s : string) : string :=
  match s with
  | EmptyString => EmptyString
  | String c s' => String (normalize_char c) (normalize_encoding s')
  end.

Definition lookup_codec (encoding : string) : option codec :=
  let n := normalize_encoding encoding in
  if existsb (String.eqb n) ["utf_8"; "utf8"; "u8"; "utf"] then Some UTF_8
  else if existsb (String.eqb n) ["ascii"; "us_ascii"; "646"] then Some ASCII
  else if existsb (String.eqb n) ["latin_1"; "latin1"; "iso_8859_1"; "iso8859_1"; "l1"; "latin"]
  then Some LATIN_1
  else None.

Definition byte_in (b : byte) (lo hi : Z) : bool :=
  (lo <=? byte_to_Z b) && (byte_to_Z b <=? hi).

(** Well-formed UTF-8 (the Unicode standard's table of byte sequences):
    no overlong forms, no surrogates, nothing above U+10FFFF. *)
Fixpoint utf8_valid (bs : list byte) : bool :=
  match bs with
  | [] => true
  | b0 :: rest =>
      if byte_in b0 0 127 then utf8_valid rest
      else
        match rest with
        | b1 :: rest1 =>
            if byte_in b0 194 223 then byte_in b1 128 191 && utf8_valid rest1
            else
              match rest1 with
              | b2 :: rest2 =>
                  if byte_in b0 224 239 then
                    (if byte_in b0 224 224 then byte_in b1 160 191
                     else if byte_in b0 237 237 then byte_in b1 128 159
                     else byte_in b1 128 191)
                    && byte_in b2 128 191 && utf8_valid rest2
                  else
                    match rest2 with
                    | b3 :: rest3 =>
                        byte_in b0 240 244
                        && (if byte_in b0 240 240 then byte_in b1 144 191
                            else if byte_in b0 244 244 then byte_in b1 128 143
                            else byte_in b1 128 191)
                        && byte_in b2 128 191 && byte_in b3 128 191 && utf8_valid rest3
                    | [] => false
                    end
              | [] => false
              end
        | [] => false
        end
  end.

Definition byte_of_Z (z : Z) : byte :=
  match Byte.of_N (Z.to_N z) with
  | Some b => b
  | None => x00
  end.

(** The UTF-8 form of the code points 0..255. *)
Fixpoint latin1_to_utf8 (bs : list byte) : list byte :=
  match bs with
  | [] => []
  | b :: rest =>
      if byte_in b 0 127 then b :: latin1_to_utf8 rest
      else byte_of_Z (Z.lor 192 (Z.shiftr (byte_to_Z b) 6))
           :: byte_of_Z (Z.lor 128 (Z.land (byte_to_Z b) 63))
           :: latin1_to_utf8 rest
  end.

Definition bytes_decode (bs : list byte) (encoding : pyobj) : res exc string :=
  match encoding with
  | PStr e =>
      match lookup_codec e with
      | Some UTF_8 =>
          if utf8_valid bs then Ok (string_of_list_byte bs) else Raise UnicodeDecodeError
      | Some ASCII =>
          if forallb (fun b => byte_in b 0 127) bs then Ok (string_of_list_byte bs)
          else Raise UnicodeDecodeError
      | Some LATIN_1 => Ok (string_of_list_byte (latin1_to_utf8 bs))
      | None => Raise LookupError
      end
  | _ => Raise TypeError
  end.

(** *** [struct.unpack_from(fmt, buffer)[0]]

    The formats modelled are one float ([f], 4 bytes) or one double ([d],
    8 bytes) in standard layout after a byte-order character [<], [>] or
    [!]; any other format text is treated as malformed.  The result is the
    datum whose encoding is the word that the first bytes of the buffer
    spell in that order. *)
Definition unsigned_word (big : bool) (bs : list byte) : Z :=
  sum_shifted (if big then rev bs else bs) 0.

Definition struct_unpack_from (fmt : string) (buffer : list byte) : res exc value :=
  let unpack (big : bool) (n : nat) :=
    if Nat.leb n (length buffer)
    then Ok (VFloat (8 * Z.of_nat n) (unsigned_word big (take n buffer)))
    else Raise struct_error in
  if String.eqb fmt "<f" then unpack false 4%nat
  else if String.eqb fmt "<d" then unpack false 8%nat
  else if String.eqb fmt ">f" || String.eqb fmt "!f" then unpack true 4%nat
  else if String.eqb fmt ">d" || String.eqb fmt "!d" then unpack true 8%nat
  else Raise struct_error.

(** The text of [f'{order}{sign}'] when both are strings; another object
    formats to text that is none of the formats above. *)
Definition float_format (order sign : pyobj) : string :=
  match order, sign with
  | PStr o, PStr s => o ++ s
  | _, _ => "?"
  end.

(** ** The interpreter state and its monad

    A handler reads and moves the byte source [r] and reads and updates the
    binding context [self._Ctx], and it may raise.  An exception does not
    undo what was done before it: the state is returned beside the
    outcome in both cases. *)

(** What [Parse] raises: [RuntimeError v context] is [RuntimeError(v)]
    raised while handling [context], which Python keeps as its
    [__context__]; [Exc e] is any exception raised directly. *)
Inductive exception : Type :=
| Exc (e : exc)
| RuntimeError (v : node) (context : exception).

Record state : Type := mkState {
  st_r : BytesIO;
  st_Ctx : gmap string value
}.

Definition M (A : Type) : Type := state -> res exception A * state.

Definition ret {A} (a : A) : M A := fun s => (Ok a, s).

Definition bind {A B} (m : M A) (k : A -> M B) : M B :=
  fun s =>
    match m s with
    | (Ok a, s') => k a s'
    | (Raise e, s') => (Raise e, s')
    end.

Definition raise {A} (e : exc) : M A := fun s => (Raise (Exc e), s).

(** A library call that may raise and does not touch the state. *)
Definition lift {A} (x : res exc A) : M A :=
  fun s =>
    match x with
    | Ok a => (Ok a, s)
    | Raise e => (Raise (Exc e), s)
    end.

Declare Scope M_scope.
Delimit Scope M_scope with M.
Notation "x <- m ;; k" := (bind m (fun x => k))
  (at level 100, m at next level, right associativity) : M_scope.
Bind Scope M_scope with M.

(** [try: ... except: raise RuntimeError(v)] *)
Definition try_except_RuntimeError {A} (v : node) (body : M A) : M A :=
  fun s =>
    match body s with
    | (Ok a, s') => (Ok a, s')
    | (Raise e, s') => (Raise (RuntimeError v e), s')
    end.

(** [r.read(size)] *)
Definition read (size : option Z) : M (list byte) :=
  fun s =>
    let (bs, r') := BytesIO_read (st_r s) size in
    (Ok bs, mkState r' (st_Ctx s)).

(** [r.read(size)] with [size] an object: [None] or an integer. *)
Definition read_obj (size : option value) : M (list byte) :=
  (match size with
   | Some VNone => read None
   | Some v => n <- lift (z <- value_index v ;; as_ssize_t z)%res ;; read (Some n)
   | None => raise TypeError
   end)%M.

(** [r.tell()] *)
Definition tell : M Z := fun s => (Ok (BytesIO_tell (st_r s)), s).

(** [r.seek(offset, whence)] *)
Definition seek (offset whence : Z) : M unit :=
  fun s =>
    match BytesIO_seek (st_r s) offset whence with
    | Ok r' => (Ok tt, mkState r' (st_Ctx s))
    | Raise e => (Raise (Exc e), s)
    end.

(** [ctx[n] = vv] *)
Definition ctx_set (n : string) (vv : value) : M unit :=
  fun s => (Ok tt, mkState (st_r s) (<[n := vv]> (st_Ctx s))).

(** [self._Ctx[name]] *)
Definition ctx_get (name : string) : M value :=
  fun s =>
    match st_Ctx s !! name with
    | Some v => (Ok v, s)
    | None => (Raise (Exc KeyError), s)
    end.

(** A literal object of a node slot seen as data; other objects are
    neither [None] nor integers nor strings. *)
Definition pyobj_value (o : pyobj) : option value :=
  match o with
  | PNone => Some VNone
  | PInt z => Some (VInt z)
  | PBool b => Some (VBool b)
  | PStr s => Some (VStr s)
  | _ => None
  end.

(** Whether an object can be a dict key. *)
Fixpoint hashable (o : pyobj) : bool :=
  match o with
  | PList _ => false
  | PTuple xs => forallb hashable xs
  | _ => true
  end.

(** [l[i]] on a Python list: a negative index counts from the end;
    [None] is [IndexError]. *)
Definition list_getitem {A} (l : list A) (i : Z) : option A :=
  let n := Z.of_nat (length l) in
  if (0 <=? i) && (i <? n) then nth_error l (Z.to_nat i)
  else if (- n <=? i) && (i <? 0) then nth_error l (Z.to_nat (n + i))
  else None.

(** Argument unpacking: the items of an iterable value. *)
Definition star_args (v : value) : res exc (list value) :=
  match v with
  | VList l => Ok l
  | VStr s => Ok (map (fun c => VStr (String c EmptyString)) (list_ascii_of_string s))
  | VBytes bs => Ok (map (fun b => VInt (byte_to_Z b)) bs)
  | VDict items => Ok (map (fun kv => VStr (fst kv)) items)
  | _ => Raise TypeError
  end.

(** Calling [func] on the unpacked arguments; only transform callables
    are modelled as callable. *)
Definition call (func : pyobj) (args : list value) : res exc value :=
  match func with
  | PCallable f => f args
  | _ => Raise TypeError
  end.

(** [obj[n] = vv] on an insertion-ordered dict, and [setattr(obj, n, vv)]. *)
Fixpoint dict_set (obj : list (string * value)) (n : string) (vv : value) : list (string * value) :=
  match obj with
  | [] => [(n, vv)]
  | (k, x) :: rest => if String.eqb k n then (k, vv) :: rest else (k, x) :: dict_set rest n vv
  end.

(** ** The handlers of [StructObj] (source lines 167-246) *)

Definition ParseInt (size signed order : pyobj) : M value :=
  (bs <- read_obj (pyobj_value size) ;;
   z <- lift (int_from_bytes bs order (py_truth signed)) ;;
   ret (VInt z))%M.

Definition ParseFloat (size sign order : pyobj) : M value :=
  (bs <- read_obj (pyobj_value size) ;;
   lift (struct_unpack_from (float_format order sign) bs))%M.

Definition ParseNumber (number : value) : M value := ret number.

(** The loop of [ParseUvarint]; [fuel] bounds the number of iterations and
    [None] means it ran out. *)
Fixpoint ParseUvarint_loop (fuel : nat) (value shift : Z) (s : state)
  : option (res exception Z * state) :=
  match fuel with
  | O => None
  | S fuel' =>
      match read (Some 1) s with
      | (Ok [], s') => Some (Raise (Exc EOFError), s')
      | (Ok (byte :: _), s') =>
          let value := Z.lor value (Z.shiftl (Z.land (byte_to_Z byte) 127) shift) in
          if Z.land (byte_to_Z byte) 128 =? 0 then Some (Ok value, s')
          else ParseUvarint_loop fuel' value (shift + 7) s'
      | (Raise e, s') => Some (Raise e, s')
      end
  end.

(** Every iteration consumes one byte or raises, so one more than the
    length of the buffer is enough fuel (see [ParseUvarint_loop_total]);
    the second branch is never taken. *)
Definition ParseUvarint : M value :=
  fun s =>
    match ParseUvarint_loop (S (length (buf (st_r s)))) 0 0 s with
    | Some (Ok z, s') => (Ok (VInt z), s')
    | Some (Raise e, s') => (Raise e, s')
    | None => (Raise (Exc RecursionError), s)
    end.

Definition ParseBool : M value :=
  (b <- read (Some 1) ;;
   match b with
   | [] => raise EOFError
   | b0 :: _ => ret (VBool (negb (byte_to_Z b0 =? 0)))
   end)%M.

Definition ParseVar (name : pyobj) : M value :=
  match name with
  | PStr n => ctx_get n
  | _ => if hashable name then raise KeyError else raise TypeError
  end.

Definition ParsePos : M value := (p <- tell ;; ret (VInt p))%M.

(** The handlers below call [self.Get(x[0])(r, x)] on a nested node [x];
    here they take that call, already applied to [x], as an argument. *)

Definition ParseStr (lenParams : M value) (encoding : pyobj) : M value :=
  (n <- lenParams ;;
   bs <- read_obj (Some n) ;;
   s <- lift (bytes_decode bs encoding) ;;
   ret (VStr s))%M.

Definition ParseBytes (lenParams : M value) : M value :=
  (n <- lenParams ;;
   bs <- read_obj (Some n) ;;
   ret (VBytes bs))%M.

Definition ParseBytes2 (lenParams : M value) : M value :=
  (n <- lenParams ;;
   bs <- read_obj (Some n) ;;
   ret (VStr (bytes_hex bs)))%M.

(** [[self.Get(t)(r, value) for _ in range(loop)]] *)
Fixpoint repeatM (loop : nat) (elem : M value) : M (list value) :=
  match loop with
  | O => ret []
  | S n => (x <- elem ;; xs <- repeatM n elem ;; ret (x :: xs))%M
  end.

(** [value_tag] is [value[0]], evaluated once before the loop. *)
Definition ParseList (count : M value) (value_tag : M unit) (elem : M value) : M value :=
  (loop <- count ;;
   _ <- value_tag ;;
   n <- lift (value_index loop) ;;
   xs <- repeatM (Z.to_nat n) elem ;;
   ret (VList xs))%M.

(** [[self.Get(i[0])(r, i) for i in cParams]] *)
Fixpoint sequenceM (ms : list (M value)) : M (list value) :=
  match ms with
  | [] => ret []
  | m :: rest => (x <- m ;; xs <- sequenceM rest ;; ret (x :: xs))%M
  end.

Definition ParseGroup (cParams : list (M value)) : M value :=
  (xs <- sequenceM cParams ;; ret (VList xs))%M.

Definition ParseFunc (func : pyobj) (cParams : M value) : M value :=
  (args <- cParams ;;
   xs <- lift (star_args args) ;;
   lift (call func xs))%M.

Definition ParseMatch (cond : M value) (cresults : list (M value)) : M value :=
  (c <- cond ;;
   i <- lift (value_index c) ;;
   match list_getitem cresults i with
   | Some result => result
   | None => raise IndexError
   end)%M.

Definition ParseSeek (pos : M value) (mode : pyobj) : M value :=
  (p <- pos ;;
   offset <- lift (z <- value_index p ;; as_ssize_t z)%res ;;
   whence <- lift (z <- pyobj_index mode ;; as_c_int z)%res ;;
   _ <- seek offset whence ;;
   ret (VInt (-1)))%M.

Definition ParsePeek (v : M value) : M value :=
  (pos <- tell ;;
   vv <- v ;;
   _ <- seek pos 0 ;;
   ret vv)%M.

(** The loop of [Parse]: each item of [struct.items()] comes with the
    handler call [func(r, v)] for its node. *)
Fixpoint Parse_loop (items : list (string * node * M value)) (obj : list (string * value))
  : M (list (string * value)) :=
  match items with
  | [] => ret obj
  | (n, v, func) :: rest =>
      (vv <- try_except_RuntimeError v
               (vv <- func ;; _ <- ctx_set n vv ;; ret vv) ;;
       Parse_loop rest (dict_set obj n vv))%M
  end.

(** [x[0]] on a compiled node: the tag of a tuple; [None] is not
    subscriptable. *)
Definition node_tag (x : node) : res exc Z :=
  match x with
  | N_INT _ _ _ => Ok INT
  | N_FLOAT _ _ _ => Ok FLOAT
  | N_UVARINT => Ok UVARINT
  | N_POS => Ok POS
  | N_BOOL => Ok BOOL
  | N_SEEK _ _ => Ok SEEK
  | N_PEEK _ => Ok PEEK
  | N_GROUP _ => Ok GROUP
  | N_FUNC _ _ => Ok FUNC
  | N_MATCH _ _ => Ok MATCH
  | N_BYTES _ => Ok BYTES
  | N_BYTES2 _ => Ok BYTES2
  | N_STR _ _ => Ok STR
  | N_LIST _ _ => Ok LIST
  | N_CONST _ => Ok CONST
  | N_STRUCT _ => Ok STRUCT
  | N_VAR _ => Ok VAR
  | N_None => Raise TypeError
  end.

(** The object [Parse] returns: a [Struct] instance in [StructObj], a dict
    in [StructDict]. *)
Definition result_obj (ReturnDict : bool) (obj : list (string * value)) : value :=
  if ReturnDict then VDict obj else VObj obj.

(** [struct.items()], each node paired with the handler call for it. *)
Definition struct_items (get : node -> M value) (struct : list (string * node))
  : list (string * node * M value) :=
  map (fun nv => (fst nv, snd nv, get (snd nv))) struct.

(** [self.Get(v[0])(r, v)]: the dispatch table [FuncDict] of lines 147-150
    applied to a node.  [ReturnDict] tells which of the two instances
    [self] is: [StructDictCls] (true) or [StructObjCls] (false); it only
    matters in [ParseStruct], which calls [self.Parse]. *)
Fixpoint Get (ReturnDict : bool) (v : node) {struct v} : M value :=
  match v with
  | N_INT size signed order => ParseInt size signed order
  | N_FLOAT size sign order => ParseFloat size sign order
  | N_UVARINT => ParseUvarint
  | N_STR lenParams encoding => ParseStr (Get ReturnDict lenParams) encoding
  | N_BYTES lenParams => ParseBytes (Get ReturnDict lenParams)
  | N_BYTES2 lenParams => ParseBytes2 (Get ReturnDict lenParams)
  | N_LIST count value =>
      ParseList (Get ReturnDict count)
                (bind (lift (node_tag value)) (fun _ => ret tt))
                (Get ReturnDict value)
  | N_STRUCT struct =>
      (obj <- Parse_loop (struct_items (Get ReturnDict) struct) [] ;;
       ret (result_obj ReturnDict obj))%M
  | N_CONST number => ParseNumber number
  | N_VAR name => ParseVar name
  | N_MATCH cond cresults =>
      ParseMatch (Get ReturnDict cond) (map (Get ReturnDict) cresults)
  | N_GROUP cParams => ParseGroup (map (Get ReturnDict) cParams)
  | N_FUNC func cParams => ParseFunc func (Get ReturnDict cParams)
  | N_SEEK pos mode => ParseSeek (Get ReturnDict pos) mode
  | N_PEEK v' => ParsePeek (Get ReturnDict v')
  | N_POS => ParsePos
  | N_BOOL => ParseBool
  | N_None => raise TypeError
  end.

(** [StructObj.Parse] (lines 154-165) and [StructDict.Parse] (lines
    249-260), which differ in the object they fill. *)
Definition Parse (ReturnDict : bool) (struct : list (string * node)) : M value :=
  (obj <- Parse_loop (struct_items (Get ReturnDict) struct) [] ;;
   ret (result_obj ReturnDict obj))%M.

(** ** The entry point [ParseStruct] (source lines 288-297) *)

(** The two module-level interpreter instances, each with its [_Ctx]. *)
Record world : Type := mkWorld {
  StructObjCls_Ctx : gmap string value;
  StructDictCls_Ctx : gmap string value
}.

(** [cls._Ctx] and [cls._Ctx = ctx], [cls] chosen by [ReturnDict]. *)
Definition cls_Ctx (ReturnDict : bool) (w : world) : gmap string value :=
  if ReturnDict then StructDictCls_Ctx w else StructObjCls_Ctx w.

Definition set_cls_Ctx (ReturnDict : bool) (ctx : gmap string value) (w : world) : world :=
  if ReturnDict then mkWorld (StructObjCls_Ctx w) ctx
  else mkWorld ctx (StructDictCls_Ctx w).

(** The first argument: a class to compile, or a compiled schema. *)
Inductive schema : Type :=
| SchemaClass (cls : list (string * pyobj))
| SchemaCompiled (struct : list (string * node)).

(** The second argument: raw bytes or a reader. *)
Inductive source : Type :=
| RawBytes (bs : list byte)
| Reader (r : BytesIO).

(** Lines 289-290: raw bytes are wrapped in a [BytesIO]. *)
Definition open_source (r : source) : BytesIO :=
  match r with
  | RawBytes bs => mkBytesIO bs 0
  | Reader r => r
  end.

(** Lines 291-292: a class is compiled with the defaults of the call, a
    compiled schema is taken as it is. *)
Definition compile_schema (struct : schema) (order encoding : string)
  (order2 : option string) (bytesToHex : bool) : res exc (list (string * node)) :=
  match struct with
  | SchemaClass cls =>
      CompileStruct cls order encoding
        (Some (match order2 with
               | None => if String.eqb order "big" then ">" else "<"
               | Some o => o
               end))
        bytesToHex
  | SchemaCompiled s => Ok s
  end.

(** The outcome, with the two contexts and the reader as the call leaves
    them. *)
Definition ParseStruct (struct : schema) (r : source) (ReturnDict : bool)
  (order encoding : string) (order2 : option string) (bytesToHex : bool)
  (w : world) : res exception value * world * BytesIO :=
  let r := open_source r in
  match compile_schema struct order encoding order2 bytesToHex with
  | Raise e => (Raise (Exc e), w, r)
  | Ok struct =>
      let w := set_cls_Ctx ReturnDict ∅ w in
      match Parse ReturnDict struct (mkState r (cls_Ctx ReturnDict w)) with
      | (Ok v, s) => (Ok v, set_cls_Ctx ReturnDict ∅ (set_cls_Ctx ReturnDict (st_Ctx s) w), st_r s)
      | (Raise e, s) => (Raise e, set_cls_Ctx ReturnDict (st_Ctx s) w, st_r s)
      end
  end.

(** ** Reference definitions

    Written from the descriptions the properties are stated against, not
    from the source: an LEB128 encoder and the big-endian two's-complement
    reading of a byte string. *)

(** The reference LEB128 encoder: seven bits at a time, least significant
    group first, the high bit set on every byte but the last. *)
Equations? uleb128_encode (v : Z) : list byte by wf (Z.to_nat v) lt :=
  uleb128_encode v with Z_le_gt_dec (Z.shiftr v 7) 0 := {
    | left _ => [byte_of_Z (Z.land v 127)]
    | right _ => byte_of_Z (Z.lor (Z.land v 127) 128) :: uleb128_encode (Z.shiftr v 7) }.
Proof.
  rewrite Z.shiftr_div_pow2 in * by lia.
  assert (0 < v) by (destruct (Z_lt_le_dec 0 v) as [|Hle]; [assumption|];
    exfalso; pose proof (Z.div_le_upper_bound v (2 ^ 7) 0 ltac:(lia) ltac:(lia)); lia).
  pose proof (Z.div_lt v (2 ^ 7) ltac:(lia) ltac:(lia)).
  lia.
Qed.

(** The unsigned value of a byte string read most significant byte
    first. *)
Definition unsigned_be (bs : list byte) : Z :=
  fold_left (fun acc b => acc * 256 + byte_to_Z b) bs 0.

(** The reference reading of [bs] as an integer of [8 * length bs] bits:
    unsigned, or two's complement when [signed]. *)
Definition reference_int (big signed : bool) (bs : list byte) : Z :=
  let u := unsigned_be (if big then bs else rev bs) in
  let w := 8 * Z.of_nat (length bs) in
  if signed && (2 ^ (w - 1) <=? u) then u - 2 ^ w else u.

(** A sized builder applied to a bit-width, then compiled: [Int[bits]] as a
    field of a schema compiled with the given defaults. *)
Definition compile_sized (f : _TypeFactory) (bits : Z) (order order2 encoding : string)
  (bytesToHex : bool) : res exc node :=
  (b <- TypeFactory_getitem f (PInt bits) ;;
   CompileType (PBase b) order order2 encoding bytesToHex)%res.

(** ** Definitions used by the statements below *)

(** A computation keeps the frame when it never changes the bytes of the
    reader and never removes a name from the binding context. *)
Definition frame {A} (m : M A) : Prop :=
  forall s, buf (st_r (snd (m s))) = buf (st_r s)
            /\ dom (st_Ctx s) ⊆ dom (st_Ctx (snd (m s))).

(** The value of a byte string read least significant byte first. *)
Fixpoint le_value (l : list byte) : Z :=
  match l with
  | [] => 0
  | b :: rest => byte_to_Z b + 256 * le_value rest
  end.

(** The integer that a run of LEB128 groups spells: the low seven bits of
    each byte, least significant group first. *)
Fixpoint uvarint_value (groups : list byte) : Z :=
  match groups with
  | [] => 0
  | b :: rest => Z.lor (Z.land (byte_to_Z b) 127) (Z.shiftl (uvarint_value rest) 7)
  end.

(** The continuation bit of a byte, [byte & 0x80]. *)
Definition high_bit (b : byte) : bool := negb (Z.land (byte_to_Z b) 128 =? 0).

(** The boolean a byte stands for, [b[0] != 0]. *)
Definition bool_of_byte (b : byte) : value := VBool (negb (byte_to_Z b =? 0)).

(** Objects that are neither a descriptor, an integer, a string nor a
    class. *)
Definition not_a_field (v : pyobj) : bool :=
  match v with
  | PNone | PTuple _ | PList _ | PCallable _ => true
  | _ => false
  end.

(** Every bytes node inside [v] is of the one kind that the flag selects:
    [BYTES2] when [hex], [BYTES] otherwise. *)
Fixpoint bytes_mode (hex : bool) (v : node) : bool :=
  match v with
  | N_BYTES l => negb hex && bytes_mode hex l
  | N_BYTES2 l => hex && bytes_mode hex l
  | N_SEEK p _ => bytes_mode hex p
  | N_PEEK v' => bytes_mode hex v'
  | N_GROUP l => forallb (bytes_mode hex) l
  | N_FUNC _ c => bytes_mode hex c
  | N_MATCH c l => bytes_mode hex c && forallb (bytes_mode hex) l
  | N_STR l _ => bytes_mode hex l
  | N_LIST c e => bytes_mode hex c && bytes_mode hex e
  | N_STRUCT fs => forallb (fun nv => bytes_mode hex (snd nv)) fs
  | _ => true
  end.

(** A property of the objects held in the slots of a descriptor. *)
Definition BaseType_all (P : pyobj -> Prop) (b : BaseType) : Prop :=
  match b with
  | B_INT x y z | B_FLOAT x y z => P x /\ P y /\ P z
  | B_STR x y | B_LIST x y | B_FUNC x y | B_MATCH x y | B_SEEK x y => P x /\ P y
  | B_BYTES x | B_VAR x | B_PEEK x => P x
  | B_GROUP l => Forall P l
  | B_plain _ => True
  end.


(** * Properties *)

(** ** Bytes and the LEB128 encoder *)

Lemma byte_to_Z_range b : 0 <= byte_to_Z b < 256.
Proof.
  unfold byte_to_Z. pose proof (Byte.to_N_bounded b). lia.
Qed.

Lemma byte_of_Z_to_Z z : 0 <= z < 256 -> byte_to_Z (byte_of_Z z) = z.
Proof.
  intros Hz. unfold byte_to_Z, byte_of_Z.
  destruct (Byte.of_N (Z.to_N z)) as [b|] eqn:E.
  - apply Byte.to_of_N in E. rewrite E. lia.
  - apply Byte.of_N_None_iff in E. lia.
Qed.

Lemma uleb128_encode_eq v :
  uleb128_encode v =
  if Z_le_gt_dec (Z.shiftr v 7) 0 then [byte_of_Z (Z.land v 127)]
  else byte_of_Z (Z.lor (Z.land v 127) 128) :: uleb128_encode (Z.shiftr v 7).
Proof.
  rewrite uleb128_encode_equation_1.
  destruct (Z_le_gt_dec (Z.shiftr v 7) 0); reflexivity.
Qed.

Lemma land_127_range v : 0 <= Z.land v 127 < 128.
Proof.
  change 127 with (Z.ones 7). rewrite Z.land_ones by lia.
  apply Z.mod_pos_bound. lia.
Qed.


Lemma cont_byte_range v : 0 <= Z.lor (Z.land v 127) 128 < 256.
Proof.
  pose proof (land_127_range v) as H.
  pose proof (proj2 (Z.lor_nonneg (Z.land v 127) 128) ltac:(lia)) as Hnn.
  split; [exact Hnn|].
  assert (Z.lor (Z.land v 127) 128 <> 0) by (rewrite Z.lor_eq_0_iff; lia).
  change 256 with (2 ^ 8). apply Z.log2_lt_pow2; [lia|].
  rewrite Z.log2_lor by lia. change (Z.log2 128) with 7.
  assert (Z.log2 (Z.land v 127) < 7); [|lia].
  destruct (Z.eq_dec (Z.land v 127) 0) as [->|Hne]; [reflexivity|].
  apply Z.log2_lt_pow2; lia.
Qed.

Lemma cont_byte_low v : Z.land (Z.lor (Z.land v 127) 128) 127 = Z.land v 127.
Proof.
  rewrite Z.land_lor_distr_l, <- Z.land_assoc.
  change (Z.land 127 127) with 127. change (Z.land 128 127) with 0.
  apply Z.lor_0_r.
Qed.

Lemma cont_byte_high v : Z.land (Z.lor (Z.land v 127) 128) 128 = 128.
Proof.
  rewrite Z.land_lor_distr_l, <- Z.land_assoc.
  change (Z.land 127 128) with 0. change (Z.land 128 128) with 128.
  rewrite Z.land_0_r. reflexivity.
Qed.

Lemma last_byte_high v : Z.land (Z.land v 127) 128 = 0.
Proof.
  rewrite <- Z.land_assoc. change (Z.land 127 128) with 0. apply Z.land_0_r.
Qed.

Lemma last_byte_low v : Z.land (Z.land v 127) 127 = Z.land v 127.
Proof.
  rewrite <- Z.land_assoc. reflexivity.
Qed.

(** Splitting off the low seven bits. *)
Lemma shiftl_split7 v shift :
  0 <= shift ->
  Z.lor (Z.shiftl (Z.land v 127) shift) (Z.shiftl (Z.shiftr v 7) (shift + 7)) = Z.shiftl v shift.
Proof.
  intros Hs.
  replace (shift + 7) with (7 + shift) by lia.
  rewrite <- (Z.shiftl_shiftl _ 7 shift) by lia.
  rewrite <- Z.shiftl_lor. f_equal.
  apply Z.bits_inj'. intros n Hn.
  rewrite Z.lor_spec.
  change 127 with (Z.ones 7).
  destruct (Z_lt_le_dec n 7).
  - rewrite Z.land_spec, Z.ones_spec_low by lia.
    rewrite Z.shiftl_spec_low by lia. rewrite andb_true_r, orb_false_r. reflexivity.
  - rewrite Z.land_spec, Z.ones_spec_high by lia.
    rewrite Z.shiftl_spec by lia. rewrite Z.shiftr_spec by lia.
    rewrite andb_false_r. simpl. f_equal. lia.
Qed.

Lemma read_one pre b rest ctx :
  read (Some 1) (mkState (mkBytesIO (pre ++ b :: rest) (length pre)) ctx)
  = (Ok [b], mkState (mkBytesIO (pre ++ b :: rest) (length pre + 1)) ctx).
Proof.
  unfold read, BytesIO_read. simpl.
  rewrite drop_app_length. simpl. reflexivity.
Qed.

Lemma read_one_eof buf ctx :
  read (Some 1) (mkState (mkBytesIO buf (length buf)) ctx)
  = (Ok [], mkState (mkBytesIO buf (length buf)) ctx).
Proof.
  unfold read, BytesIO_read. simpl.
  rewrite drop_all. simpl. rewrite Nat.add_0_r. reflexivity.
Qed.

Lemma shiftr7_small v : 0 <= v -> Z.shiftr v 7 <= 0 -> Z.land v 127 = v.
Proof.
  intros Hv H. change 127 with (Z.ones 7). rewrite Z.land_ones by lia.
  rewrite Z.shiftr_div_pow2 in H by lia.
  apply Z.mod_small. split; [lia|].
  destruct (Z_lt_le_dec v (2^7)); [assumption|].
  pose proof (Z.div_le_lower_bound v (2^7) 1 ltac:(lia) ltac:(lia)). lia.
Qed.

Lemma shiftr7_lt v : Z.shiftr v 7 > 0 -> 0 <= Z.shiftr v 7 < v.
Proof.
  intros H. rewrite Z.shiftr_div_pow2 in * by lia. change (2 ^ 7) with 128 in *.
  assert (0 < v); [|split; [lia|apply Z.div_lt; lia]].
  destruct (Z_lt_le_dec 0 v) as [|Hle]; [assumption|].
  pose proof (Z.div_le_upper_bound v 128 0 ltac:(lia) ltac:(lia)). lia.
Qed.

Lemma ParseUvarint_loop_encode V :
  0 <= V ->
  forall fuel pre post ctx value shift,
    0 <= shift ->
    (length (uleb128_encode V) <= fuel)%nat ->
    ParseUvarint_loop fuel value shift
      (mkState (mkBytesIO (pre ++ uleb128_encode V ++ post) (length pre)) ctx)
    = Some (Ok (Z.lor value (Z.shiftl V shift)),
            mkState (mkBytesIO (pre ++ uleb128_encode V ++ post)
                       (length pre + length (uleb128_encode V))) ctx).
Proof.
  intros HV. pattern V. apply Zlt_0_ind; [|exact HV]. clear V HV.
  intros V IH HV fuel pre post ctx value shift Hs Hfuel.
  rewrite uleb128_encode_eq in *.
  destruct (Z_le_gt_dec (Z.shiftr V 7) 0) as [Hsmall|Hbig];
    (destruct fuel as [|fuel]; [cbn [length] in Hfuel; lia|]);
    cbn [ParseUvarint_loop app]; rewrite read_one.
  - rewrite byte_of_Z_to_Z by (pose proof (land_127_range V); lia).
    rewrite last_byte_high, last_byte_low. simpl Z.eqb. cbv iota.
    rewrite shiftr7_small by assumption. reflexivity.
  - rewrite byte_of_Z_to_Z by apply cont_byte_range.
    rewrite cont_byte_high, cont_byte_low. simpl Z.eqb. cbv iota.
    specialize (IH (Z.shiftr V 7) (shiftr7_lt V Hbig) fuel
                  ((pre ++ [byte_of_Z (Z.lor (Z.land V 127) 128)])%list) post ctx
                  (Z.lor value (Z.shiftl (Z.land V 127) shift)) (shift + 7)).
    rewrite <- !app_assoc in IH. cbn [app] in IH.
    rewrite length_app in IH. cbn [length] in IH.
    rewrite IH by (cbn [length] in Hfuel; lia).
    rewrite <- Z.lor_assoc, shiftl_split7 by lia.
    cbn [length]. do 3 f_equal. f_equal. lia.
Qed.

Lemma uleb128_encode_length_pos V : (0 < length (uleb128_encode V))%nat.
Proof.
  rewrite uleb128_encode_eq.
  destruct (Z_le_gt_dec (Z.shiftr V 7) 0); cbn [length]; lia.
Qed.

Lemma ParseUvarint_loop_truncated V :
  0 <= V ->
  forall n fuel pre ctx value shift,
    (n < length (uleb128_encode V))%nat ->
    (n < fuel)%nat ->
    ParseUvarint_loop fuel value shift
      (mkState (mkBytesIO (pre ++ take n (uleb128_encode V)) (length pre)) ctx)
    = Some (Raise (Exc EOFError),
            mkState (mkBytesIO (pre ++ take n (uleb128_encode V)) (length pre + n)) ctx).
Proof.
  intros HV. pattern V. apply Zlt_0_ind; [|exact HV]. clear V HV.
  intros V IH HV n fuel pre ctx value shift Hn Hfuel.
  destruct fuel as [|fuel]; [lia|].
  destruct n as [|n].
  - rewrite take_0, app_nil_r, Nat.add_0_r.
    cbn [ParseUvarint_loop]. rewrite read_one_eof. reflexivity.
  - rewrite uleb128_encode_eq in *.
    destruct (Z_le_gt_dec (Z.shiftr V 7) 0) as [Hsmall|Hbig];
      [cbn [length] in Hn; lia|].
    cbn [take ParseUvarint_loop]. rewrite read_one.
    rewrite byte_of_Z_to_Z by apply cont_byte_range.
    rewrite cont_byte_high. simpl Z.eqb. cbv iota.
    specialize (IH (Z.shiftr V 7) (shiftr7_lt V Hbig) n fuel
                  ((pre ++ [byte_of_Z (Z.lor (Z.land V 127) 128)])%list) ctx
                  (Z.lor value (Z.shiftl (Z.land (Z.lor (Z.land V 127) 128) 127) shift))
                  (shift + 7)).
    rewrite <- !app_assoc in IH. cbn [app] in IH.
    rewrite length_app in IH. cbn [length] in IH.
    rewrite IH by (cbn [length] in Hn; lia).
    do 3 f_equal. f_equal. lia.
Qed.

(** The loop never runs out of the fuel that [ParseUvarint] gives it. *)
Lemma ParseUvarint_loop_total fuel :
  forall s value shift,
    (length (buf (st_r s)) - pos (st_r s) < fuel)%nat ->
    exists out, ParseUvarint_loop fuel value shift s = Some out.
Proof.
  induction fuel as [|fuel IH]; intros s value shift Hfuel; [lia|].
  cbn [ParseUvarint_loop]. unfold read, BytesIO_read.
  destruct s as [[b p] ctx]. cbn [st_r st_Ctx buf pos] in *.
  destruct (Z.ltb_spec 1 0) as [|_]; [lia|].
  destruct (drop p b) as [|x rest] eqn:E.
  - cbn. eauto.
  - change (Z.to_nat 1) with 1%nat. cbn [length Nat.min take].
    destruct (Z.land (byte_to_Z x) 128 =? 0); [eauto|].
    apply IH. cbn [st_r buf pos].
    assert (length (drop p b) = S (length rest)) as Hl by (rewrite E; reflexivity).
    rewrite length_drop in Hl. lia.
Qed.

(** With the fuel [ParseUvarint] gives it, the loop always ends. *)
Lemma ParseUvarint_enough_fuel s :
  ParseUvarint_loop (S (length (buf (st_r s)))) 0 0 s <> None.
Proof.
  destruct (ParseUvarint_loop_total (S (length (buf (st_r s)))) s 0 0) as [out ->];
    [lia | discriminate].
Qed.

(** C4.  For every non-negative integer [V], [ParseUvarint] on a reader
    positioned at the reference LEB128 encoding of [V] (after any bytes
    [pre], before any bytes [post]) returns exactly [V] and leaves the
    reader just after the encoding; and on the encoding cut short, keeping
    only its first [n] bytes for any [n] below its length (so also with
    just the last byte missing), it raises [EOFError]. *)
Theorem ParseUvarint_uleb128_roundtrip (V : Z) (HV : 0 <= V) :
  forall ReturnDict pre post ctx,
    Get ReturnDict N_UVARINT
      (mkState (mkBytesIO (pre ++ uleb128_encode V ++ post) (length pre)) ctx)
    = (Ok (VInt V),
       mkState (mkBytesIO (pre ++ uleb128_encode V ++ post)
                  (length pre + length (uleb128_encode V))) ctx)
    /\ forall n,
        (n < length (uleb128_encode V))%nat ->
        Get ReturnDict N_UVARINT
          (mkState (mkBytesIO (pre ++ take n (uleb128_encode V)) (length pre)) ctx)
        = (Raise (Exc EOFError),
           mkState (mkBytesIO (pre ++ take n (uleb128_encode V)) (length pre + n)) ctx).
Proof.
  intros rd pre post ctx. split.
  - destruct rd; cbn [Get]; unfold ParseUvarint;
      (rewrite ParseUvarint_loop_encode;
       [rewrite Z.lor_0_l, Z.shiftl_0_r; reflexivity | assumption | lia
       | cbn [st_r buf]; rewrite !length_app; lia]).
  - intros n Hn.
    destruct rd; cbn [Get]; unfold ParseUvarint;
      (rewrite ParseUvarint_loop_truncated;
       [reflexivity | assumption | assumption
       | cbn [st_r buf]; rewrite length_app, length_take; lia]).
Qed.

Lemma ParseUvarint_uleb128_roundtrip_witness :
  Get false N_UVARINT (mkState (mkBytesIO [xac; x02] 0) ∅)
  = (Ok (VInt 300), mkState (mkBytesIO [xac; x02] 2) ∅)
  /\ Get false N_UVARINT (mkState (mkBytesIO [xac] 0) ∅)
     = (Raise (Exc EOFError), mkState (mkBytesIO [xac] 1) ∅).
Proof.
  destruct (ParseUvarint_uleb128_roundtrip 300 ltac:(lia) false [] [] ∅) as [H1 H2].
  split; [exact H1 | apply (H2 1%nat); vm_compute; lia].
Defined.

(** ** The frame of the interpreter: bytes kept, bindings never removed *)

(** Induction over nodes, with the nodes nested in lists taken along. *)
Section node_induction.
Variable P : node -> Prop.
Hypothesis H_INT : forall a b c, P (N_INT a b c).
Hypothesis H_FLOAT : forall a b c, P (N_FLOAT a b c).
Hypothesis H_UVARINT : P N_UVARINT.
Hypothesis H_POS : P N_POS.
Hypothesis H_BOOL : P N_BOOL.
Hypothesis H_SEEK : forall p m, P p -> P (N_SEEK p m).
Hypothesis H_PEEK : forall v, P v -> P (N_PEEK v).
Hypothesis H_GROUP : forall l, Forall P l -> P (N_GROUP l).
Hypothesis H_FUNC : forall f c, P c -> P (N_FUNC f c).
Hypothesis H_MATCH : forall c l, P c -> Forall P l -> P (N_MATCH c l).
Hypothesis H_BYTES : forall l, P l -> P (N_BYTES l).
Hypothesis H_BYTES2 : forall l, P l -> P (N_BYTES2 l).
Hypothesis H_STR : forall l e, P l -> P (N_STR l e).
Hypothesis H_LIST : forall c v, P c -> P v -> P (N_LIST c v).
Hypothesis H_CONST : forall x, P (N_CONST x).
Hypothesis H_STRUCT : forall fs, Forall (fun nv => P (snd nv)) fs -> P (N_STRUCT fs).
Hypothesis H_VAR : forall n, P (N_VAR n).
Hypothesis H_None : P N_None.

Lemma node_nested_ind : forall v, P v.
Proof.
  fix IH 1. intros [a b c|a b c| | | |p m|v|l|f c|c l|l|l|l e|c v|x|fs|n|].
  - apply H_INT.
  - apply H_FLOAT.
  - apply H_UVARINT.
  - apply H_POS.
  - apply H_BOOL.
  - apply H_SEEK, IH.
  - apply H_PEEK, IH.
  - apply H_GROUP. induction l as [|x l IHl]; constructor; [apply IH | exact IHl].
  - apply H_FUNC, IH.
  - apply H_MATCH; [apply IH|].
    induction l as [|x l IHl]; constructor; [apply IH | exact IHl].
  - apply H_BYTES, IH.
  - apply H_BYTES2, IH.
  - apply H_STR, IH.
  - apply H_LIST; apply IH.
  - apply H_CONST.
  - apply H_STRUCT.
    induction fs as [|[n x] fs IHfs]; constructor; [apply IH | exact IHfs].
  - apply H_VAR.
  - apply H_None.
Qed.
End node_induction.

Lemma frame_ret {A} (a : A) : frame (ret a).
Proof. intros s. split; [reflexivity | set_solver]. Qed.

Lemma frame_raise {A} e : frame (@raise A e).
Proof. intros s. split; [reflexivity | set_solver]. Qed.

Lemma frame_lift {A} (x : res exc A) : frame (lift x).
Proof. intros s. unfold lift. destruct x; split; (reflexivity || set_solver). Qed.

Lemma frame_bind {A B} (m : M A) (k : A -> M B) :
  frame m -> (forall a, frame (k a)) -> frame (bind m k).
Proof.
  intros Hm Hk s. unfold bind. specialize (Hm s).
  destruct (m s) as [[a|e] s1]; cbn [snd] in *.
  - destruct (Hk a s1) as [H1 H2]. destruct Hm as [H3 H4].
    split; [congruence | set_solver].
  - exact Hm.
Qed.

Lemma frame_try {A} v (m : M A) : frame m -> frame (try_except_RuntimeError v m).
Proof.
  intros Hm s. unfold try_except_RuntimeError. specialize (Hm s).
  destruct (m s) as [[a|e] s1]; exact Hm.
Qed.

Lemma frame_read size : frame (read size).
Proof. intros s. unfold read, BytesIO_read. cbn. split; [reflexivity | set_solver]. Qed.

Lemma frame_read_obj size : frame (read_obj size).
Proof.
  unfold read_obj. destruct size as [[]|];
    try apply frame_raise; try apply frame_read;
    (apply frame_bind; [apply frame_lift | intros; apply frame_read]).
Qed.

Lemma frame_tell : frame tell.
Proof. intros s. split; [reflexivity | set_solver]. Qed.

Lemma frame_seek offset whence : frame (seek offset whence).
Proof.
  intros s. unfold seek, BytesIO_seek.
  repeat match goal with |- context [if ?c then _ else _] => destruct c end;
    cbn; split; (reflexivity || set_solver).
Qed.

Lemma frame_ctx_set n vv : frame (ctx_set n vv).
Proof.
  intros s. unfold ctx_set. cbn. split; [reflexivity|].
  rewrite dom_insert_L. set_solver.
Qed.

Lemma frame_ctx_get n : frame (ctx_get n).
Proof.
  intros s. unfold ctx_get. destruct (st_Ctx s !! n); split; (reflexivity || set_solver).
Qed.

Lemma ParseUvarint_loop_frame fuel :
  forall value shift s out,
    ParseUvarint_loop fuel value shift s = Some out ->
    buf (st_r (snd out)) = buf (st_r s) /\ dom (st_Ctx s) ⊆ dom (st_Ctx (snd out)).
Proof.
  induction fuel as [|fuel IH]; intros value shift s out H; [discriminate|].
  cbn [ParseUvarint_loop] in H.
  pose proof (frame_read (Some 1) s) as Hr.
  destruct (read (Some 1) s) as [[[|b bs]|e] s1]; cbn [snd] in Hr.
  - injection H as <-. exact Hr.
  - destruct (Z.land (byte_to_Z b) 128 =? 0).
    + injection H as <-. exact Hr.
    + destruct (IH _ _ _ _ H) as [H1 H2]. destruct Hr as [H3 H4].
      split; [congruence | clear IH; set_solver].
  - injection H as <-. exact Hr.
Qed.

Lemma frame_ParseUvarint : frame ParseUvarint.
Proof.
  intros s. unfold ParseUvarint.
  destruct (ParseUvarint_loop _ 0 0 s) as [[[z|e] s1]|] eqn:E;
    try (apply ParseUvarint_loop_frame in E; exact E).
  split; [reflexivity | set_solver].
Qed.

Lemma frame_repeatM n (m : M value) : frame m -> frame (repeatM n m).
Proof.
  intros Hm. induction n as [|n IH]; cbn [repeatM]; [apply frame_ret|].
  apply frame_bind; [exact Hm|]. intros x.
  apply frame_bind; [exact IH|]. intros xs. apply frame_ret.
Qed.

Lemma frame_sequenceM (ms : list (M value)) : Forall frame ms -> frame (sequenceM ms).
Proof.
  induction 1 as [|m ms Hm _ IH]; cbn [sequenceM]; [apply frame_ret|].
  apply frame_bind; [exact Hm|]. intros x.
  apply frame_bind; [exact IH|]. intros xs. apply frame_ret.
Qed.

Lemma frame_Parse_loop (items : list (string * node * M value)) :
  Forall (fun it => frame (snd it)) items -> forall obj, frame (Parse_loop items obj).
Proof.
  intros H. induction H as [|it items Hm _ IH]; intros obj; [apply frame_ret|].
  destruct it as [[n v] func]. cbn [Parse_loop snd] in *.
  apply frame_bind; [|intros vv; apply IH].
  apply frame_try. apply frame_bind; [exact Hm|]. intros vv.
  apply frame_bind; [apply frame_ctx_set|]. intros _. apply frame_ret.
Qed.

Lemma frame_list_getitem (ms : list (M value)) i :
  Forall frame ms ->
  frame (match list_getitem ms i with Some result => result | None => raise IndexError end).
Proof.
  intros H. destruct (list_getitem ms i) as [m|] eqn:E; [|apply frame_raise].
  unfold list_getitem in E.
  rewrite Forall_forall in H. apply H.
  repeat match type of E with (if ?c then _ else _) = _ => destruct c end;
    try discriminate; apply list_elem_of_In; eapply nth_error_In; exact E.
Qed.

Lemma Get_frame ReturnDict v : frame (Get ReturnDict v).
Proof.
  induction v using node_nested_ind; cbn [Get].
  - unfold ParseInt. apply frame_bind; [apply frame_read_obj|]. intros bs.
    apply frame_bind; [apply frame_lift|]. intros z. apply frame_ret.
  - unfold ParseFloat. apply frame_bind; [apply frame_read_obj|]. intros bs. apply frame_lift.
  - apply frame_ParseUvarint.
  - unfold ParsePos. apply frame_bind; [apply frame_tell|]. intros. apply frame_ret.
  - unfold ParseBool. apply frame_bind; [apply frame_read|].
    intros [|b bs]; [apply frame_raise | apply frame_ret].
  - unfold ParseSeek. apply frame_bind; [assumption|]. intros p.
    apply frame_bind; [apply frame_lift|]. intros offset.
    apply frame_bind; [apply frame_lift|]. intros whence.
    apply frame_bind; [apply frame_seek|]. intros. apply frame_ret.
  - unfold ParsePeek. apply frame_bind; [apply frame_tell|]. intros p.
    apply frame_bind; [assumption|]. intros vv.
    apply frame_bind; [apply frame_seek|]. intros. apply frame_ret.
  - unfold ParseGroup. apply frame_bind; [|intros; apply frame_ret].
    apply frame_sequenceM. rewrite Forall_map. exact H.
  - unfold ParseFunc. apply frame_bind; [assumption|]. intros args.
    apply frame_bind; [apply frame_lift|]. intros xs. apply frame_lift.
  - unfold ParseMatch. apply frame_bind; [assumption|]. intros c.
    apply frame_bind; [apply frame_lift|]. intros i.
    apply frame_list_getitem. rewrite Forall_map. exact H.
  - unfold ParseBytes. apply frame_bind; [assumption|]. intros n.
    apply frame_bind; [apply frame_read_obj|]. intros. apply frame_ret.
  - unfold ParseBytes2. apply frame_bind; [assumption|]. intros n.
    apply frame_bind; [apply frame_read_obj|]. intros. apply frame_ret.
  - unfold ParseStr. apply frame_bind; [assumption|]. intros n.
    apply frame_bind; [apply frame_read_obj|]. intros bs.
    apply frame_bind; [apply frame_lift|]. intros. apply frame_ret.
  - unfold ParseList. apply frame_bind; [assumption|]. intros loop.
    apply frame_bind; [apply frame_bind; [apply frame_lift | intros; apply frame_ret]|]. intros _.
    apply frame_bind; [apply frame_lift|]. intros n.
    apply frame_bind; [apply frame_repeatM; assumption|]. intros. apply frame_ret.
  - apply frame_ret.
  - apply frame_bind; [|intros; apply frame_ret].
    apply frame_Parse_loop. unfold struct_items. rewrite Forall_map. exact H.
  - unfold ParseVar. destruct n; try apply frame_ctx_get;
      destruct (hashable _); apply frame_raise.
  - apply frame_raise.
Qed.

(** ** Lookahead *)

(** C5.  For every compiled node [D] and every state [s] of reader and
    context: when decoding [D] at [s] returns [v], decoding the lookahead
    of [D] at [s] returns the same [v] and leaves the reader exactly as it
    was in [s], position included, whatever [D] read or wherever it
    seeked; the bindings [D] made stay in the context. *)
Theorem ParsePeek_lookahead ReturnDict (D : node) (s s' : state) (v : value)
  (HD : Get ReturnDict D s = (Ok v, s')) :
  Get ReturnDict (N_PEEK D) s = (Ok v, mkState (st_r s) (st_Ctx s'))
  /\ pos (st_r (snd (Get ReturnDict (N_PEEK D) s))) = pos (st_r s).
Proof.
  assert (Get ReturnDict (N_PEEK D) s = (Ok v, mkState (st_r s) (st_Ctx s'))) as E.
  { pose proof (Get_frame ReturnDict D s) as [Hbuf _]. rewrite HD in Hbuf. cbn [snd] in Hbuf.
    cbn [Get]. unfold ParsePeek, bind, tell. rewrite HD.
    unfold seek, BytesIO_seek, BytesIO_tell.
    destruct (Z.ltb_spec (Z.of_nat (pos (st_r s))) 0) as [Hneg|_]; [lia|].
    cbn. rewrite Nat2Z.id, Hbuf. destruct s as [[b p] c]. reflexivity. }
  split; [exact E | rewrite E; reflexivity].
Qed.

Lemma ParsePeek_lookahead_witness :
  Get false (N_PEEK (N_INT (PInt 2) (PBool false) (PStr "big")))
    (mkState (mkBytesIO [x01; x02; x03] 1) ∅)
  = (Ok (VInt 515), mkState (mkBytesIO [x01; x02; x03] 1) ∅).
Proof.
  apply (ParsePeek_lookahead false (N_INT (PInt 2) (PBool false) (PStr "big"))
           (mkState (mkBytesIO [x01; x02; x03] 1) ∅)
           (mkState (mkBytesIO [x01; x02; x03] 3) ∅) (VInt 515)).
  reflexivity.
Defined.

(** When the nested decode raises, the exception leaves [ParsePeek] before
    the rewind. *)
Lemma ParsePeek_raises ReturnDict D s e s' :
  Get ReturnDict D s = (Raise e, s') ->
  Get ReturnDict (N_PEEK D) s = (Raise e, s').
Proof.
  intros HD. cbn [Get]. unfold ParsePeek, bind, tell. rewrite HD. reflexivity.
Qed.

(** ** Lists *)

(** C10.  For every List node whose element is a node and whose count
    decodes to a negative integer [n], decoding the list does not raise:
    it returns the empty list in the state the count left, the element
    being decoded zero times, exactly as a list with the constant count 0
    does from that state. *)
Theorem ParseList_negative_count ReturnDict (count value_ : node) (s s1 : state) (n : Z)
  (Hcount : Get ReturnDict count s = (Ok (VInt n), s1))
  (Hnode : value_ <> N_None)
  (Hneg : n < 0) :
  Get ReturnDict (N_LIST count value_) s = (Ok (VList []), s1)
  /\ Get ReturnDict (N_LIST count value_) s
     = Get ReturnDict (N_LIST (N_CONST (VInt 0)) value_) s1.
Proof.
  assert (exists t, node_tag value_ = Ok t) as [t Ht]
    by (destruct value_; try contradiction; eexists; reflexivity).
  cbn [Get]. unfold ParseList, bind, lift, ParseNumber, ret. rewrite Hcount, Ht.
  cbn [value_index]. destruct n; try lia. cbn. split; reflexivity.
Qed.

Lemma ParseList_negative_count_witness :
  Get false (N_LIST (N_INT (PInt 1) (PBool true) (PStr "little")) N_BOOL)
    (mkState (mkBytesIO [xfd; x01; x01] 0) ∅)
  = (Ok (VList []), mkState (mkBytesIO [xfd; x01; x01] 1) ∅).
Proof.
  apply (ParseList_negative_count false (N_INT (PInt 1) (PBool true) (PStr "little")) N_BOOL
           (mkState (mkBytesIO [xfd; x01; x01] 0) ∅)
           (mkState (mkBytesIO [xfd; x01; x01] 1) ∅) (-3));
    [reflexivity | discriminate | lia].
Defined.

(** ** Conditional variants *)

Lemma list_getitem_map {A B} (f : A -> B) (l : list A) (i : Z) :
  list_getitem (map f l) i = option_map f (list_getitem l i).
Proof.
  unfold list_getitem. rewrite length_map.
  repeat match goal with |- context [if ?c then _ else _] => destruct c end;
    try reflexivity; apply nth_error_map.
Qed.

(** C8.  For every conditional-variant node, decoding evaluates the
    condition first; when its value is the integer [i], the node decodes as
    the result at index [i] when [0 <= i < n], raises [IndexError] when [i]
    indexes no result ([n <= i] or [i < -n]), and, as Python list indexing
    counts a negative index from the end, decodes as the result at [n + i]
    when [-n <= i < 0]; [n] is the number of results. *)
Theorem ParseMatch_selects ReturnDict (cond : node) (cresults : list node)
  (s s1 : state) (c : value) (i : Z)
  (Hcond : Get ReturnDict cond s = (Ok c, s1))
  (Hindex : value_index c = Ok i) :
  let n := Z.of_nat (length cresults) in
  (forall result, 0 <= i < n -> nth_error cresults (Z.to_nat i) = Some result ->
     Get ReturnDict (N_MATCH cond cresults) s = Get ReturnDict result s1)
  /\ (n <= i \/ i < - n ->
      Get ReturnDict (N_MATCH cond cresults) s = (Raise (Exc IndexError), s1))
  /\ (forall result, - n <= i < 0 -> nth_error cresults (Z.to_nat (n + i)) = Some result ->
        Get ReturnDict (N_MATCH cond cresults) s = Get ReturnDict result s1).
Proof.
  intros n.
  assert (Get ReturnDict (N_MATCH cond cresults) s =
          match list_getitem cresults i with
          | Some result => Get ReturnDict result s1
          | None => (Raise (Exc IndexError), s1)
          end) as E.
  { cbn [Get]. unfold ParseMatch, bind, lift. rewrite Hcond, Hindex.
    rewrite list_getitem_map. destruct (list_getitem cresults i); reflexivity. }
  rewrite E. unfold list_getitem. fold n.
  repeat split.
  - intros result Hi Hnth.
    destruct (Z.leb_spec 0 i), (Z.ltb_spec i n); try lia. cbn. rewrite Hnth. reflexivity.
  - intros Hi.
    destruct (Z.leb_spec 0 i), (Z.ltb_spec i n), (Z.leb_spec (- n) i), (Z.ltb_spec i 0);
      try lia; reflexivity.
  - intros result Hi Hnth.
    destruct (Z.leb_spec 0 i), (Z.ltb_spec i n), (Z.leb_spec (- n) i), (Z.ltb_spec i 0);
      try lia; cbn; rewrite Hnth; reflexivity.
Qed.

Lemma ParseMatch_selects_witness :
  Get false (N_MATCH (N_CONST (VInt 1))
               [N_CONST (VStr "x"); N_CONST (VStr "y"); N_CONST (VStr "z")])
    (mkState (mkBytesIO [] 0) ∅)
  = (Ok (VStr "y"), mkState (mkBytesIO [] 0) ∅)
  /\ Get false (N_MATCH (N_CONST (VInt 5))
                  [N_CONST (VStr "x"); N_CONST (VStr "y"); N_CONST (VStr "z")])
       (mkState (mkBytesIO [] 0) ∅)
     = (Raise (Exc IndexError), mkState (mkBytesIO [] 0) ∅)
  /\ Get false (N_MATCH (N_CONST (VInt (-1)))
                  [N_CONST (VStr "x"); N_CONST (VStr "y"); N_CONST (VStr "z")])
       (mkState (mkBytesIO [] 0) ∅)
     = (Ok (VStr "z"), mkState (mkBytesIO [] 0) ∅).
Proof.
  split; [|split].
  - destruct (ParseMatch_selects false (N_CONST (VInt 1))
                [N_CONST (VStr "x"); N_CONST (VStr "y"); N_CONST (VStr "z")]
                (mkState (mkBytesIO [] 0) ∅) (mkState (mkBytesIO [] 0) ∅) (VInt 1) 1
                eq_refl eq_refl) as (H & _ & _).
    apply (H (N_CONST (VStr "y"))); [cbn; lia | reflexivity].
  - destruct (ParseMatch_selects false (N_CONST (VInt 5))
                [N_CONST (VStr "x"); N_CONST (VStr "y"); N_CONST (VStr "z")]
                (mkState (mkBytesIO [] 0) ∅) (mkState (mkBytesIO [] 0) ∅) (VInt 5) 5
                eq_refl eq_refl) as (_ & H & _).
    apply H. left. cbn. lia.
  - destruct (ParseMatch_selects false (N_CONST (VInt (-1)))
                [N_CONST (VStr "x"); N_CONST (VStr "y"); N_CONST (VStr "z")]
                (mkState (mkBytesIO [] 0) ∅) (mkState (mkBytesIO [] 0) ∅) (VInt (-1)) (-1)
                eq_refl eq_refl) as (_ & _ & H).
    apply (H (N_CONST (VStr "z"))); [cbn; lia | reflexivity].
Defined.

(** ** Records: failures, the shared context, the entry point *)

Lemma Parse_loop_app (xs ys : list (string * node * M value)) :
  forall obj s,
    Parse_loop (xs ++ ys) obj s =
    match Parse_loop xs obj s with
    | (Ok obj', s') => Parse_loop ys obj' s'
    | (Raise e, s') => (Raise e, s')
    end.
Proof.
  induction xs as [|[[n v] func] xs IH]; intros obj s; [reflexivity|].
  cbn [app Parse_loop]. unfold bind.
  destruct (try_except_RuntimeError v _ s) as [[vv|e] s1]; [apply IH | reflexivity].
Qed.

Lemma struct_items_app get xs ys :
  struct_items get (xs ++ ys) = (struct_items get xs ++ struct_items get ys)%list.
Proof. unfold struct_items. apply map_app. Qed.

Lemma Parse_Ok_inv ReturnDict struct s o s1 :
  Parse ReturnDict struct s = (Ok o, s1) ->
  exists obj, Parse_loop (struct_items (Get ReturnDict) struct) [] s = (Ok obj, s1)
              /\ o = result_obj ReturnDict obj.
Proof.
  unfold Parse, bind, ret. destruct (Parse_loop _ [] s) as [[obj|e] s'].
  - intros [= <- <-]. eauto.
  - discriminate.
Qed.

Lemma Parse_app_failure ReturnDict pre post n v s s1 s2 o e :
  Parse ReturnDict pre s = (Ok o, s1) ->
  Get ReturnDict v s1 = (Raise e, s2) ->
  Parse ReturnDict (pre ++ (n, v) :: post) s = (Raise (RuntimeError v e), s2).
Proof.
  intros Hpre Hfail.
  apply Parse_Ok_inv in Hpre as (obj & Hloop & _).
  unfold Parse, bind. rewrite struct_items_app, Parse_loop_app, Hloop.
  cbn [struct_items map Parse_loop fst snd]. unfold bind, try_except_RuntimeError.
  rewrite Hfail. reflexivity.
Qed.

Lemma cls_Ctx_set ReturnDict ctx w : cls_Ctx ReturnDict (set_cls_Ctx ReturnDict ctx w) = ctx.
Proof. destruct ReturnDict; reflexivity. Qed.

Lemma set_cls_Ctx_set ReturnDict ctx ctx' w :
  set_cls_Ctx ReturnDict ctx (set_cls_Ctx ReturnDict ctx' w) = set_cls_Ctx ReturnDict ctx w.
Proof. destruct ReturnDict; reflexivity. Qed.

(** What a call of the entry point on a compiled schema comes to. *)
Lemma ParseStruct_compiled st r ReturnDict order encoding order2 bytesToHex w :
  ParseStruct (SchemaCompiled st) r ReturnDict order encoding order2 bytesToHex w =
  match Parse ReturnDict st (mkState (open_source r) ∅) with
  | (Ok v, s) => (Ok v, set_cls_Ctx ReturnDict ∅ w, st_r s)
  | (Raise e, s) => (Raise e, set_cls_Ctx ReturnDict (st_Ctx s) w, st_r s)
  end.
Proof.
  unfold ParseStruct. cbn [compile_schema]. rewrite cls_Ctx_set.
  destruct (Parse ReturnDict st _) as [[v|e] s]; rewrite !set_cls_Ctx_set; reflexivity.
Qed.

(** C9.  When the fields before [(n, v)] decode without error and the
    handler of [v] raises [e], [Parse] raises [RuntimeError(v)] with [e] as
    its context, in the state the failing handler left: the fields after it
    are not decoded and no result object is returned.  The entry point
    then ends with the same exception. *)
Theorem Parse_first_failure ReturnDict (pre post : list (string * node))
  (n : string) (v : node) (s s1 s2 : state) (o : value) (e : exception)
  (Hpre : Parse ReturnDict pre s = (Ok o, s1))
  (Hfail : Get ReturnDict v s1 = (Raise e, s2)) :
  Parse ReturnDict (pre ++ (n, v) :: post) s = (Raise (RuntimeError v e), s2)
  /\ forall r order encoding order2 bytesToHex w,
       s = mkState (open_source r) ∅ ->
       ParseStruct (SchemaCompiled (pre ++ (n, v) :: post)) r ReturnDict
         order encoding order2 bytesToHex w
       = (Raise (RuntimeError v e), set_cls_Ctx ReturnDict (st_Ctx s2) w, st_r s2).
Proof.
  pose proof (Parse_app_failure ReturnDict pre post n v s s1 s2 o e Hpre Hfail) as E.
  split; [exact E|].
  intros r order encoding order2 bytesToHex w ->.
  rewrite ParseStruct_compiled, E. reflexivity.
Qed.

Lemma Parse_first_failure_witness :
  Parse false [("A", N_CONST (VInt 1)); ("B", N_BOOL); ("C", N_CONST (VInt 2))]
    (mkState (mkBytesIO [] 0) ∅)
  = (Raise (RuntimeError N_BOOL (Exc EOFError)),
     mkState (mkBytesIO [] 0) {["A" := VInt 1]})
  /\ ParseStruct
       (SchemaCompiled [("A", N_CONST (VInt 1)); ("B", N_BOOL); ("C", N_CONST (VInt 2))])
       (RawBytes []) false "little" "utf-8" None false (mkWorld ∅ ∅)
     = (Raise (RuntimeError N_BOOL (Exc EOFError)), mkWorld {["A" := VInt 1]} ∅,
        mkBytesIO [] 0).
Proof.
  destruct (Parse_first_failure false [("A", N_CONST (VInt 1))] [("C", N_CONST (VInt 2))]
              "B" N_BOOL (mkState (mkBytesIO [] 0) ∅)
              (mkState (mkBytesIO [] 0) {["A" := VInt 1]})
              (mkState (mkBytesIO [] 0) {["A" := VInt 1]})
              (VObj [("A", VInt 1)]) (Exc EOFError) eq_refl eq_refl) as [H1 H2].
  split; [exact H1|].
  exact (H2 (RawBytes []) "little" "utf-8" None false (mkWorld ∅ ∅) eq_refl).
Defined.

Lemma Get_STRUCT ReturnDict fields : Get ReturnDict (N_STRUCT fields) = Parse ReturnDict fields.
Proof. reflexivity. Qed.

(** One successful turn of the loop of [Parse]. *)
Lemma Parse_loop_cons_Ok n v (func : M value) rest obj s x s1 :
  func s = (Ok x, s1) ->
  Parse_loop ((n, v, func) :: rest) obj s
  = Parse_loop rest (dict_set obj n x) (mkState (st_r s1) (<[n := x]> (st_Ctx s1))).
Proof.
  intros H. cbn [Parse_loop]. unfold bind, try_except_RuntimeError, ctx_set, ret.
  rewrite H. reflexivity.
Qed.

Lemma Parse_cons_Ok ReturnDict n v rest s x s1 :
  Get ReturnDict v s = (Ok x, s1) ->
  Parse ReturnDict ((n, v) :: rest) s
  = bind (Parse_loop (struct_items (Get ReturnDict) rest) [(n, x)])
         (fun obj => ret (result_obj ReturnDict obj))
         (mkState (st_r s1) (<[n := x]> (st_Ctx s1))).
Proof.
  intros H. unfold Parse. cbn [struct_items map fst snd]. unfold bind at 1.
  rewrite (Parse_loop_cons_Ok _ _ _ _ _ _ _ _ H). reflexivity.
Qed.

Lemma ParseVar_bound ReturnDict name s x :
  st_Ctx s !! name = Some x -> Get ReturnDict (N_VAR (PStr name)) s = (Ok x, s).
Proof. intros H. cbn [Get ParseVar]. unfold ctx_get. rewrite H. reflexivity. Qed.

Lemma dict_set_fresh1 k x n vv :
  k <> n -> dict_set [(k, x)] n vv = [(k, x); (n, vv)].
Proof.
  intros H. cbn [dict_set]. destruct (String.eqb_spec k n); [contradiction | reflexivity].
Qed.

Lemma dict_set_fresh2 k1 x1 k2 x2 n vv :
  k1 <> n -> k2 <> n -> dict_set [(k1, x1); (k2, x2)] n vv = [(k1, x1); (k2, x2); (n, vv)].
Proof.
  intros H1 H2. cbn [dict_set].
  destruct (String.eqb_spec k1 n); [contradiction|].
  destruct (String.eqb_spec k2 n); [contradiction | reflexivity].
Qed.

(** C6.  A nested record is decoded by [Parse] on the very state of its
    parent, so one context serves the whole call: a field [A] bound in the
    parent is what a back-reference to [A] inside a later nested record
    reads, and when a nested record binds [A] again, a later back-reference
    in the parent reads the later value. *)
Theorem binding_context_is_flat ReturnDict :
  (forall fields s, Get ReturnDict (N_STRUCT fields) s = Parse ReturnDict fields s)
  /\ (forall A B C vA x s s1,
        A <> B ->
        Get ReturnDict vA s = (Ok x, s1) ->
        Parse ReturnDict [(A, vA); (B, N_STRUCT [(C, N_VAR (PStr A))])] s
        = (Ok (result_obj ReturnDict [(A, x); (B, result_obj ReturnDict [(C, x)])]),
           mkState (st_r s1)
             (<[B := result_obj ReturnDict [(C, x)]]> (<[C := x]> (<[A := x]> (st_Ctx s1))))))
  /\ (forall A B C vA vA' x x' s s1 s2,
        A <> B -> A <> C -> B <> C ->
        Get ReturnDict vA s = (Ok x, s1) ->
        Get ReturnDict vA' (mkState (st_r s1) (<[A := x]> (st_Ctx s1))) = (Ok x', s2) ->
        Parse ReturnDict [(A, vA); (B, N_STRUCT [(A, vA')]); (C, N_VAR (PStr A))] s
        = (Ok (result_obj ReturnDict
                 [(A, x); (B, result_obj ReturnDict [(A, x')]); (C, x')]),
           mkState (st_r s2)
             (<[C := x']> (<[B := result_obj ReturnDict [(A, x')]]>
                (<[A := x']> (st_Ctx s2)))))).
Proof.
  split; [reflexivity|]. split.
  - intros A B C vA x s s1 HAB HA.
    rewrite (Parse_cons_Ok _ _ _ _ _ _ _ HA).
    cbn [struct_items map fst snd]. unfold bind at 1.
    erewrite Parse_loop_cons_Ok; cycle 1.
    { rewrite Get_STRUCT. erewrite Parse_cons_Ok; cycle 1.
      { apply ParseVar_bound. cbn [st_Ctx]. apply lookup_insert_eq. }
      cbn [struct_items map Parse_loop]. unfold bind, ret. reflexivity. }
    cbn [Parse_loop st_r st_Ctx]. unfold ret. rewrite dict_set_fresh1 by assumption.
    reflexivity.
  - intros A B C vA vA' x x' s s1 s2 HAB HAC HBC HA HA'.
    rewrite (Parse_cons_Ok _ _ _ _ _ _ _ HA).
    cbn [struct_items map fst snd]. unfold bind at 1.
    erewrite Parse_loop_cons_Ok; cycle 1.
    { rewrite Get_STRUCT. erewrite Parse_cons_Ok by exact HA'.
      cbn [struct_items map Parse_loop]. unfold bind, ret. reflexivity. }
    cbn [st_r st_Ctx]. rewrite dict_set_fresh1 by assumption.
    erewrite Parse_loop_cons_Ok; cycle 1.
    { apply ParseVar_bound. cbn [st_Ctx].
      rewrite lookup_insert_ne by congruence. apply lookup_insert_eq. }
    cbn [Parse_loop st_r st_Ctx]. unfold ret. rewrite dict_set_fresh2 by assumption.
    reflexivity.
Qed.

Lemma binding_context_is_flat_witness :
  Parse false [("A", N_INT (PInt 1) (PBool false) (PStr "little"));
               ("B", N_STRUCT [("C", N_VAR (PStr "A"))])]
    (mkState (mkBytesIO [x05] 0) ∅)
  = (Ok (VObj [("A", VInt 5); ("B", VObj [("C", VInt 5)])]),
     mkState (mkBytesIO [x05] 1)
       (<["B" := VObj [("C", VInt 5)]]> (<["C" := VInt 5]> (<["A" := VInt 5]> ∅))))
  /\ Parse false [("A", N_CONST (VInt 1));
                  ("B", N_STRUCT [("A", N_CONST (VInt 2))]);
                  ("C", N_VAR (PStr "A"))]
       (mkState (mkBytesIO [] 0) ∅)
     = (Ok (VObj [("A", VInt 1); ("B", VObj [("A", VInt 2)]); ("C", VInt 2)]),
        mkState (mkBytesIO [] 0)
          (<["C" := VInt 2]> (<["B" := VObj [("A", VInt 2)]]> (<["A" := VInt 2]> ∅)))).
Proof.
  destruct (binding_context_is_flat false) as (_ & H & H').
  split.
  - apply (H "A" "B" "C" (N_INT (PInt 1) (PBool false) (PStr "little")) (VInt 5)
             (mkState (mkBytesIO [x05] 0) ∅) (mkState (mkBytesIO [x05] 1) ∅));
      [discriminate | reflexivity].
  - rewrite (H' "A" "B" "C" (N_CONST (VInt 1)) (N_CONST (VInt 2)) (VInt 1) (VInt 2)
               (mkState (mkBytesIO [] 0) ∅) (mkState (mkBytesIO [] 0) ∅)
               (mkState (mkBytesIO [] 0) (<["A" := VInt 1]> ∅)));
      [reflexivity | discriminate | discriminate | discriminate | reflexivity | reflexivity].
Defined.

(** C7, counterexample.  A call whose second field fails leaves the
    binding of its first field in the context of the instance: the context
    is not empty after the call. *)
Lemma ParseStruct_failure_keeps_context :
  ParseStruct (SchemaCompiled [("A", N_CONST (VInt 1)); ("B", N_BOOL)]) (RawBytes [])
    false "little" "utf-8" None false (mkWorld ∅ ∅)
  = (Raise (RuntimeError N_BOOL (Exc EOFError)), mkWorld {["A" := VInt 1]} ∅, mkBytesIO [] 0)
  /\ cls_Ctx false
       (snd (fst (ParseStruct (SchemaCompiled [("A", N_CONST (VInt 1)); ("B", N_BOOL)])
                    (RawBytes []) false "little" "utf-8" None false (mkWorld ∅ ∅))))
     <> ∅.
Proof.
  split; [reflexivity|].
  intros H. apply (f_equal (fun m => m !! "A")) in H.
  vm_compute in H. discriminate.
Qed.

(** C7, amended.  A call of the entry point that gets to the
    interpretation pass runs it from the empty context, whatever the
    context held before.  When the pass returns, the context is empty
    after the call; when the pass raises, the context keeps what the pass
    left in it; when compiling the schema raises, the context is not
    touched.  During the pass a nested record starts from the context of
    its parent, and no handler ever removes a binding. *)
Theorem ParseStruct_context_reset struct r ReturnDict order encoding order2 bytesToHex w :
  match compile_schema struct order encoding order2 bytesToHex with
  | Raise e =>
      ParseStruct struct r ReturnDict order encoding order2 bytesToHex w
      = (Raise (Exc e), w, open_source r)
  | Ok st =>
      match Parse ReturnDict st (mkState (open_source r) ∅) with
      | (Ok v, s) =>
          ParseStruct struct r ReturnDict order encoding order2 bytesToHex w
          = (Ok v, set_cls_Ctx ReturnDict ∅ w, st_r s)
      | (Raise e, s) =>
          ParseStruct struct r ReturnDict order encoding order2 bytesToHex w
          = (Raise e, set_cls_Ctx ReturnDict (st_Ctx s) w, st_r s)
      end
  end
  /\ (forall fields s, Get ReturnDict (N_STRUCT fields) s = Parse ReturnDict fields s)
  /\ (forall v s, dom (st_Ctx s) ⊆ dom (st_Ctx (snd (Get ReturnDict v s)))).
Proof.
  split; [|split; [reflexivity | intros v s; apply Get_frame]].
  unfold ParseStruct.
  destruct (compile_schema struct order encoding order2 bytesToHex) as [st|e]; [|reflexivity].
  rewrite cls_Ctx_set.
  destruct (Parse ReturnDict st _) as [[v|e] s]; rewrite !set_cls_Ctx_set; reflexivity.
Qed.

(** ** The sized builders *)

(** C2.  For every bit-width, each of the three float builders raises
    [ValueError] instead of returning a descriptor: [__getitem__] passes
    two values to [BaseType.__init__], which unpacks three.  So no float
    field gets as far as the compiler. *)
Theorem Float_builders_raise (bits : Z) :
  TypeFactory_getitem Float (PInt bits) = Raise ValueError
  /\ TypeFactory_getitem FloatBE (PInt bits) = Raise ValueError
  /\ TypeFactory_getitem FloatLE (PInt bits) = Raise ValueError
  /\ (forall order order2 encoding bytesToHex,
        compile_sized Float bits order order2 encoding bytesToHex = Raise ValueError
        /\ compile_sized FloatBE bits order order2 encoding bytesToHex = Raise ValueError
        /\ compile_sized FloatLE bits order order2 encoding bytesToHex = Raise ValueError).
Proof. repeat split. Qed.

(** No argument at all makes a float builder return a descriptor. *)
Lemma Float_builders_never_build args b :
  TypeFactory_getitem Float args <> Ok b
  /\ TypeFactory_getitem FloatBE args <> Ok b
  /\ TypeFactory_getitem FloatLE args <> Ok b.
Proof. repeat split; destruct args; discriminate. Qed.

(** C3, counterexample.  12 is not a multiple of 8, yet [Int[12]] builds
    and compiles, to an integer node of byte size 1. *)
Lemma Int_12_builds_and_compiles :
  12 mod 8 <> 0
  /\ TypeFactory_getitem Int (PInt 12) = Ok (B_INT (PInt 1) PNone (PBool true))
  /\ compile_sized Int 12 "little" "<" "utf-8" false
     = Ok (N_INT (PInt 1) (PBool true) (PStr "little")).
Proof. repeat split. discriminate. Qed.

(** What the six integer builders compile to, for any bit-width. *)
Lemma compile_sized_integers (bits : Z) (order order2 encoding : string) (bytesToHex : bool) :
  compile_sized Int bits order order2 encoding bytesToHex
  = Ok (N_INT (PInt (bits / 8)) (PBool true) (PStr order))
  /\ compile_sized UInt bits order order2 encoding bytesToHex
     = Ok (N_INT (PInt (bits / 8)) (PBool false) (PStr order))
  /\ compile_sized IntBE bits order order2 encoding bytesToHex
     = Ok (N_INT (PInt (bits / 8)) (PBool true) (PStr "big"))
  /\ compile_sized UIntBE bits order order2 encoding bytesToHex
     = Ok (N_INT (PInt (bits / 8)) (PBool false) (PStr "big"))
  /\ compile_sized IntLE bits order order2 encoding bytesToHex
     = Ok (N_INT (PInt (bits / 8)) (PBool true) (PStr "Little"))
  /\ compile_sized UIntLE bits order order2 encoding bytesToHex
     = Ok (N_INT (PInt (bits / 8)) (PBool false) (PStr "Little")).
Proof. repeat split. Qed.

(** C3, amended.  For every integer bit-width [bits], each of the six
    integer builders builds a descriptor that compiles without error to an
    integer node whose byte size is [bits // 8], the floor of [bits / 8]. *)
Theorem sized_int_builders_floor (bits : Z) (order order2 encoding : string) (bytesToHex : bool) :
  compile_sized Int bits order order2 encoding bytesToHex
  = Ok (N_INT (PInt (bits / 8)) (PBool true) (PStr order))
  /\ compile_sized UInt bits order order2 encoding bytesToHex
     = Ok (N_INT (PInt (bits / 8)) (PBool false) (PStr order))
  /\ compile_sized IntBE bits order order2 encoding bytesToHex
     = Ok (N_INT (PInt (bits / 8)) (PBool true) (PStr "big"))
  /\ compile_sized UIntBE bits order order2 encoding bytesToHex
     = Ok (N_INT (PInt (bits / 8)) (PBool false) (PStr "big"))
  /\ (exists o, compile_sized IntLE bits order order2 encoding bytesToHex
                = Ok (N_INT (PInt (bits / 8)) (PBool true) o))
  /\ (exists o, compile_sized UIntLE bits order order2 encoding bytesToHex
                = Ok (N_INT (PInt (bits / 8)) (PBool false) o))
  /\ 8 * (bits / 8) <= bits < 8 * (bits / 8) + 8.
Proof.
  destruct (compile_sized_integers bits order order2 encoding bytesToHex)
    as (H1 & H2 & H3 & H4 & H5 & H6).
  repeat split; try assumption; try (eexists; eassumption).
  - apply Z.mul_div_le. lia.
  - pose proof (Z.mul_succ_div_gt bits 8 ltac:(lia)). lia.
Qed.

Lemma int_from_bytes_Little bs signed :
  int_from_bytes bs (PStr "Little") signed = Raise ValueError.
Proof. reflexivity. Qed.

Lemma Get_INT_Little ReturnDict size signed s :
  0 <= size < 2 ^ 63 ->
  fst (Get ReturnDict (N_INT (PInt size) signed (PStr "Little")) s) = Raise (Exc ValueError).
Proof.
  intros Hsize. cbn [Get]. unfold ParseInt, bind. cbn [pyobj_value read_obj].
  unfold bind, lift. cbn [value_index res_bind]. unfold as_ssize_t.
  destruct (Z.leb_spec (- 2 ^ 63) size); [|lia].
  destruct (Z.ltb_spec size (2 ^ 63)); [|lia].
  cbn [andb]. unfold read. destruct (BytesIO_read (st_r s) (Some size)) as [bs r'].
  reflexivity.
Qed.

(** C1.  For every bit-width in {8, 16, 32, 64}, every default order
    and every input, decoding the compiled node of [IntLE[bits]] or of
    [UIntLE[bits]] raises [ValueError]: the builder stores the byte order
    ["Little"], which [int.from_bytes] rejects. *)
Theorem IntLE_UIntLE_decode_raises (bits : Z)
  (Hbits : bits = 8 \/ bits = 16 \/ bits = 32 \/ bits = 64)
  (order order2 encoding : string) (bytesToHex ReturnDict : bool) (s : state) :
  (exists n, compile_sized IntLE bits order order2 encoding bytesToHex = Ok n
             /\ fst (Get ReturnDict n s) = Raise (Exc ValueError))
  /\ (exists n, compile_sized UIntLE bits order order2 encoding bytesToHex = Ok n
                /\ fst (Get ReturnDict n s) = Raise (Exc ValueError)).
Proof.
  destruct (compile_sized_integers bits order order2 encoding bytesToHex)
    as (_ & _ & _ & _ & H5 & H6).
  split; eexists; (split; [eassumption|]);
    apply Get_INT_Little;
    destruct Hbits as [-> | [-> | [-> | ->]]];
    (split; [apply Z.leb_le | apply Z.ltb_lt]; reflexivity).
Qed.

Lemma IntLE_UIntLE_decode_raises_witness :
  exists n, compile_sized IntLE 8 "little" "<" "utf-8" false = Ok n
            /\ fst (Get false n (mkState (mkBytesIO [x01] 0) ∅)) = Raise (Exc ValueError).
Proof.
  exact (proj1 (IntLE_UIntLE_decode_raises 8 (or_introl eq_refl)
                  "little" "<" "utf-8" false false (mkState (mkBytesIO [x01] 0) ∅))).
Defined.

(** The same through the entry point, on the one byte 01. *)
Example IntLE_8_ParseStruct :
  exists b, TypeFactory_getitem IntLE (PInt 8) = Ok b
            /\ fst (fst (ParseStruct (SchemaClass [("x", PBase b)]) (RawBytes [x01])
                           false "little" "utf-8" None false (mkWorld ∅ ∅)))
               = Raise (RuntimeError (N_INT (PInt 1) (PBool true) (PStr "Little"))
                          (Exc ValueError)).
Proof. eexists. split; reflexivity. Qed.

(** ** [int.from_bytes] against the reference reading *)

Lemma sum_shifted_le_value l : forall i, 0 <= i -> sum_shifted l i = le_value l * 2 ^ (8 * i).
Proof.
  induction l as [|b l IH]; intros i Hi; cbn [sum_shifted le_value]; [lia|].
  rewrite IH by lia. rewrite Z.shiftl_mul_pow2 by lia.
  replace (8 * (i + 1)) with (8 + 8 * i) by lia.
  rewrite Z.pow_add_r by lia. replace (i * 8) with (8 * i) by lia.
  change (2 ^ 8) with 256. ring.
Qed.

Lemma unsigned_be_rev l : unsigned_be (rev l) = le_value l.
Proof.
  unfold unsigned_be. induction l as [|b l IH]; [reflexivity|].
  cbn [rev le_value]. rewrite fold_left_app. cbn [fold_left]. rewrite IH. lia.
Qed.

Lemma le_value_range l : 0 <= le_value l < 256 ^ Z.of_nat (length l).
Proof.
  induction l as [|b l IH]; [cbn; lia|].
  cbn [le_value length]. rewrite Nat2Z.inj_succ, Z.pow_succ_r by lia.
  pose proof (byte_to_Z_range b). lia.
Qed.

Lemma le_value_app l b :
  le_value (l ++ [b]) = le_value l + byte_to_Z b * 256 ^ Z.of_nat (length l).
Proof.
  induction l as [|a l IH]; [cbn; lia|].
  cbn [app le_value length]. rewrite IH, Nat2Z.inj_succ, Z.pow_succ_r by lia. ring.
Qed.

Lemma byte_high_bit (b : byte) : (Z.land (byte_to_Z b) 128 =? 0) = (byte_to_Z b <? 128).
Proof. destruct b; reflexivity. Qed.

(** The sign test of [int.from_bytes] is the comparison with [2^(w-1)]. *)
Lemma sign_test l b :
  last l = Some b ->
  negb (Z.land (byte_to_Z b) 128 =? 0) = (2 ^ (8 * Z.of_nat (length l) - 1) <=? le_value l).
Proof.
  intros Hlast. apply last_Some in Hlast as [l' ->].
  rewrite le_value_app, length_app, byte_high_bit. cbn [length].
  rewrite Nat2Z.inj_add. change (Z.of_nat 1) with 1.
  replace (8 * (Z.of_nat (length l') + 1) - 1) with (7 + 8 * Z.of_nat (length l')) by lia.
  rewrite Z.pow_add_r by lia. rewrite Z.pow_mul_r by lia.
  change (2 ^ 8) with 256. change (2 ^ 7) with 128.
  pose proof (le_value_range l') as Hl. pose proof (byte_to_Z_range b) as Hb.
  set (p := 256 ^ Z.of_nat (length l')) in *.
  destruct (Z.ltb_spec (byte_to_Z b) 128), (Z.leb_spec (128 * p) (le_value l' + byte_to_Z b * p));
    cbn [negb]; try reflexivity; nia.
Qed.

Lemma int_from_bytes_reference (bs : list byte) (big signed : bool) :
  bs <> [] ->
  int_from_bytes bs (PStr (if big then "big" else "little")) signed
  = Ok (reference_int big signed bs).
Proof.
  intros Hne. unfold int_from_bytes, reference_int.
  set (lo := if big then rev bs else bs).
  assert (Hlo : (if String.eqb (if big then "big" else "little") "little" then Ok bs
                 else if String.eqb (if big then "big" else "little") "big" then Ok (rev bs)
                      else @Raise exc _ ValueError) = Ok lo) by (destruct big; reflexivity).
  rewrite Hlo. cbn [res_bind].
  assert (Hu : unsigned_be (if big then bs else rev bs) = le_value lo).
  { subst lo. destruct big; [rewrite <- (rev_involutive bs) at 1|]; apply unsigned_be_rev. }
  assert (Hlen : length lo = length bs) by (subst lo; destruct big; [apply length_rev | reflexivity]).
  rewrite Hu, Hlen, sum_shifted_le_value by lia. rewrite Z.mul_0_r, Z.pow_0_r, Z.mul_1_r.
  rewrite Z.shiftl_1_l.
  destruct (last lo) as [b|] eqn:Hlast.
  - rewrite (sign_test lo b Hlast), Hlen. reflexivity.
  - apply last_None in Hlast. destruct bs; [contradiction|]. rewrite Hlast in Hlen. discriminate.
Qed.

Lemma read_exact pre bs post ctx :
  (Z.of_nat (length bs) < 2 ^ 63) ->
  read_obj (Some (VInt (Z.of_nat (length bs))))
    (mkState (mkBytesIO (pre ++ bs ++ post) (length pre)) ctx)
  = (Ok bs, mkState (mkBytesIO (pre ++ bs ++ post) (length pre + length bs)) ctx).
Proof.
  intros Hlen. cbn [read_obj]. unfold bind, lift. cbn [value_index res_bind]. unfold as_ssize_t.
  destruct (Z.leb_spec (- 2 ^ 63) (Z.of_nat (length bs))); [|lia].
  destruct (Z.ltb_spec (Z.of_nat (length bs)) (2 ^ 63)); [|lia].
  cbn [andb]. unfold read, BytesIO_read. cbn [st_r st_Ctx buf pos].
  destruct (Z.ltb_spec (Z.of_nat (length bs)) 0); [lia|].
  rewrite drop_app_length, Nat2Z.id, length_app.
  rewrite Nat.min_l by lia. rewrite take_app_length. reflexivity.
Qed.

(** X1.  The four builders that name no byte order or the big-endian one
    decode every input of the right length to its reference reading, under
    either default order, and move the reader by that length. *)
Lemma Int_builders_decode_reference (bits : Z) (default_big bytesToHex ReturnDict : bool)
  (order2 encoding : string) (bs pre post : list byte) (ctx : gmap string value) :
  bits = 8 \/ bits = 16 \/ bits = 32 \/ bits = 64 ->
  Z.of_nat (length bs) = bits / 8 ->
  let order := if default_big then "big" else "little" in
  let s := mkState (mkBytesIO (pre ++ bs ++ post) (length pre)) ctx in
  let s' := mkState (mkBytesIO (pre ++ bs ++ post) (length pre + length bs)) ctx in
  (exists n, compile_sized Int bits order order2 encoding bytesToHex = Ok n
             /\ Get ReturnDict n s = (Ok (VInt (reference_int default_big true bs)), s'))
  /\ (exists n, compile_sized UInt bits order order2 encoding bytesToHex = Ok n
                /\ Get ReturnDict n s = (Ok (VInt (reference_int default_big false bs)), s'))
  /\ (exists n, compile_sized IntBE bits order order2 encoding bytesToHex = Ok n
                /\ Get ReturnDict n s = (Ok (VInt (reference_int true true bs)), s'))
  /\ (exists n, compile_sized UIntBE bits order order2 encoding bytesToHex = Ok n
                /\ Get ReturnDict n s = (Ok (VInt (reference_int true false bs)), s')).
Proof.
  intros Hbits Hlen order s s'.
  assert (Hne : bs <> []).
  { intros ->. cbn in Hlen. destruct Hbits as [-> | [-> | [-> | ->]]]; discriminate. }
  assert (Hsmall : Z.of_nat (length bs) < 2 ^ 63).
  { rewrite Hlen. destruct Hbits as [-> | [-> | [-> | ->]]]; reflexivity. }
  destruct (compile_sized_integers bits order order2 encoding bytesToHex)
    as (H1 & H2 & H3 & H4 & _).
  repeat split; eexists; (split; [eassumption|]);
    cbn [Get]; unfold ParseInt, bind; cbn [pyobj_value]; rewrite <- Hlen;
    subst s; rewrite (read_exact pre bs post ctx Hsmall); unfold lift, ret; cbn [py_truth].
  - subst order. rewrite (int_from_bytes_reference bs default_big true Hne). reflexivity.
  - subst order. rewrite (int_from_bytes_reference bs default_big false Hne). reflexivity.
  - rewrite (int_from_bytes_reference bs true true Hne). reflexivity.
  - rewrite (int_from_bytes_reference bs true false Hne). reflexivity.
Qed.

Lemma Int_builders_decode_reference_witness :
  exists n, compile_sized Int 16 "little" "<" "utf-8" false = Ok n
            /\ Get false n (mkState (mkBytesIO [xff; xfe] 0) ∅)
               = (Ok (VInt (-257)), mkState (mkBytesIO [xff; xfe] 2) ∅).
Proof.
  destruct (Int_builders_decode_reference 16 false false false "<" "utf-8"
              [xff; xfe] [] [] ∅ (or_intror (or_introl eq_refl)) eq_refl) as (H & _).
  exact H.
Defined.

(** * Further properties of the code *)

(** Closed bounds [lo <= c < hi] by evaluation. *)
Ltac closed_range := split; [apply Z.leb_le | apply Z.ltb_lt]; reflexivity.

(** ** The varint decoder on any input *)

Lemma uvarint_value_nonneg groups : 0 <= uvarint_value groups.
Proof.
  induction groups as [|b rest IH]; cbn [uvarint_value]; [lia|].
  apply Z.lor_nonneg. split.
  - apply Z.land_nonneg. right. lia.
  - apply Z.shiftl_nonneg. exact IH.
Qed.

Lemma lor_shift_group value g rest shift :
  0 <= shift ->
  Z.lor (Z.lor value (Z.shiftl g shift)) (Z.shiftl rest (shift + 7))
  = Z.lor value (Z.shiftl (Z.lor g (Z.shiftl rest 7)) shift).
Proof.
  intros Hs. rewrite <- Z.lor_assoc. f_equal.
  rewrite Z.shiftl_lor, Z.shiftl_shiftl by lia. do 2 f_equal. lia.
Qed.

Lemma ParseUvarint_loop_groups cont :
  forall last fuel pre post ctx value shift,
    forallb high_bit cont = true ->
    high_bit last = false ->
    0 <= shift ->
    (length cont < fuel)%nat ->
    ParseUvarint_loop fuel value shift
      (mkState (mkBytesIO (pre ++ cont ++ last :: post) (length pre)) ctx)
    = Some (Ok (Z.lor value (Z.shiftl (uvarint_value (cont ++ [last])) shift)),
            mkState (mkBytesIO (pre ++ cont ++ last :: post)
                       (length pre + length cont + 1)) ctx).
Proof.
  induction cont as [|b cont IH]; intros last fuel pre post ctx value shift Hc Hl Hs Hfuel;
    (destruct fuel as [|fuel]; [cbn [length] in Hfuel; lia|]);
    cbn [ParseUvarint_loop app]; rewrite read_one.
  - unfold high_bit in Hl. apply negb_false_iff in Hl. rewrite Hl.
    cbn [uvarint_value length]. rewrite Z.shiftl_0_l, Z.lor_0_r, Nat.add_0_r. reflexivity.
  - cbn [forallb] in Hc. apply andb_prop in Hc as [Hb Hc].
    unfold high_bit in Hb. apply negb_true_iff in Hb. rewrite Hb.
    specialize (IH last fuel ((pre ++ [b])%list) post ctx
                  (Z.lor value (Z.shiftl (Z.land (byte_to_Z b) 127) shift)) (shift + 7)
                  Hc Hl ltac:(lia) ltac:(cbn [length] in Hfuel; lia)).
    rewrite <- !app_assoc in IH. cbn [app] in IH.
    rewrite length_app in IH. cbn [length] in IH.
    rewrite IH. cbn [uvarint_value length]. rewrite lor_shift_group by lia.
    do 3 f_equal. f_equal. lia.
Qed.

Lemma ParseUvarint_loop_groups_eof cont :
  forall fuel pre ctx value shift,
    forallb high_bit cont = true ->
    (length cont < fuel)%nat ->
    ParseUvarint_loop fuel value shift
      (mkState (mkBytesIO (pre ++ cont) (length pre)) ctx)
    = Some (Raise (Exc EOFError),
            mkState (mkBytesIO (pre ++ cont) (length pre + length cont)) ctx).
Proof.
  induction cont as [|b cont IH]; intros fuel pre ctx value shift Hc Hfuel;
    (destruct fuel as [|fuel]; [cbn [length] in Hfuel; lia|]);
    cbn [ParseUvarint_loop].
  - rewrite app_nil_r, read_one_eof. cbn [length]. rewrite Nat.add_0_r. reflexivity.
  - rewrite read_one.
    cbn [forallb] in Hc. apply andb_prop in Hc as [Hb Hc].
    unfold high_bit in Hb. apply negb_true_iff in Hb. rewrite Hb.
    specialize (IH fuel ((pre ++ [b])%list) ctx
                  (Z.lor value (Z.shiftl (Z.land (byte_to_Z b) 127) shift)) (shift + 7)
                  Hc ltac:(cbn [length] in Hfuel; lia)).
    rewrite <- !app_assoc in IH. cbn [app] in IH.
    rewrite length_app in IH. cbn [length] in IH.
    rewrite IH. cbn [length]. do 3 f_equal. f_equal. lia.
Qed.

(** X2.  [ParseUvarint] reads up to and including the first byte whose
    high bit is clear and returns the integer the low seven bits of the
    bytes read spell, least significant group first; that integer is never
    negative.  The bytes need not be a canonical encoding.  When every
    remaining byte has its high bit set, it raises [EOFError] at the end of
    the input. *)
Theorem ParseUvarint_groups ReturnDict (cont : list byte) (last : byte)
  (pre post : list byte) (ctx : gmap string value)
  (Hcont : forallb high_bit cont = true)
  (Hlast : high_bit last = false) :
  Get ReturnDict N_UVARINT
    (mkState (mkBytesIO (pre ++ cont ++ last :: post) (length pre)) ctx)
  = (Ok (VInt (uvarint_value (cont ++ [last]))),
     mkState (mkBytesIO (pre ++ cont ++ last :: post) (length pre + length cont + 1)) ctx)
  /\ Get ReturnDict N_UVARINT (mkState (mkBytesIO (pre ++ cont) (length pre)) ctx)
     = (Raise (Exc EOFError), mkState (mkBytesIO (pre ++ cont) (length pre + length cont)) ctx)
  /\ 0 <= uvarint_value (cont ++ [last]).
Proof.
  split; [|split; [|apply uvarint_value_nonneg]].
  - destruct ReturnDict; cbn [Get]; unfold ParseUvarint;
      (rewrite (ParseUvarint_loop_groups cont last);
       [rewrite Z.lor_0_l, Z.shiftl_0_r; reflexivity | assumption | assumption | lia
       | cbn [st_r buf]; rewrite !length_app; lia]).
  - destruct ReturnDict; cbn [Get]; unfold ParseUvarint;
      (rewrite (ParseUvarint_loop_groups_eof cont);
       [reflexivity | assumption | cbn [st_r buf]; rewrite !length_app; lia]).
Qed.

Lemma ParseUvarint_groups_witness :
  Get false N_UVARINT (mkState (mkBytesIO [x80; x80; x00; xff] 0) ∅)
  = (Ok (VInt 0), mkState (mkBytesIO [x80; x80; x00; xff] 3) ∅)
  /\ Get false N_UVARINT (mkState (mkBytesIO [x80; x80] 0) ∅)
     = (Raise (Exc EOFError), mkState (mkBytesIO [x80; x80] 2) ∅).
Proof.
  destruct (ParseUvarint_groups false [x80; x80] x00 [] [xff] ∅ eq_refl eq_refl)
    as (H1 & H2 & _).
  split; [exact H1 | exact H2].
Defined.

(** The two outcomes of [r.read(1)]. *)
Lemma read_one_cases s :
  (read (Some 1) s = (Ok [], s) /\ (length (buf (st_r s)) <= pos (st_r s))%nat)
  \/ (exists b, read (Some 1) s
                = (Ok [b], mkState (mkBytesIO (buf (st_r s)) (pos (st_r s) + 1)) (st_Ctx s))
                /\ drop (pos (st_r s)) (buf (st_r s)) !! 0%nat = Some b
                /\ (pos (st_r s) < length (buf (st_r s)))%nat).
Proof.
  destruct s as [[b p] ctx]. unfold read, BytesIO_read. cbn [st_r st_Ctx buf pos].
  change (1 <? 0) with false. cbv iota.
  destruct (drop p b) as [|x rest] eqn:E.
  - left. cbn. rewrite Nat.add_0_r. split; [reflexivity|].
    apply (f_equal length) in E. rewrite length_drop in E. cbn in E. lia.
  - right. exists x. change (Z.to_nat 1) with 1%nat. cbn [length Nat.min take].
    split; [reflexivity|]. split; [reflexivity|].
    apply (f_equal length) in E. rewrite length_drop in E. cbn [length] in E. lia.
Qed.

Lemma ParseUvarint_loop_outcome fuel :
  forall value shift s out,
    0 <= value -> 0 <= shift ->
    ParseUvarint_loop fuel value shift s = Some out ->
    (exists z, fst out = Ok z /\ 0 <= z
               /\ (pos (st_r s) < pos (st_r (snd out)) <= length (buf (st_r s)))%nat)
    \/ (fst out = Raise (Exc EOFError)
        /\ (length (buf (st_r s)) <= pos (st_r (snd out)))%nat).
Proof.
  induction fuel as [|fuel IH]; intros value shift s out Hv Hs H; [discriminate|].
  cbn [ParseUvarint_loop] in H.
  destruct (read_one_cases s) as [[E Hend] | (b & E & _ & Hlt)]; rewrite E in H.
  - injection H as <-. right. split; [reflexivity | exact Hend].
  - assert (Hv' : 0 <= Z.lor value (Z.shiftl (Z.land (byte_to_Z b) 127) shift)).
    { apply Z.lor_nonneg. split; [exact Hv|].
      apply Z.shiftl_nonneg, Z.land_nonneg. right. lia. }
    destruct (Z.land (byte_to_Z b) 128 =? 0).
    + injection H as <-. left. eexists. split; [reflexivity|].
      split; [exact Hv'|]. cbn [snd st_r pos]. lia.
    + assert (Hs' : 0 <= shift + 7) by lia.
      pose proof (IH _ _ _ _ Hv' Hs' H) as H'.
      cbn [st_r buf pos] in H'. destruct H' as [(z & Hz & Hz0 & Hp) | [He Hp]].
      * left. exists z. repeat split; try assumption; lia.
      * right. split; assumption.
Qed.

(** X3.  From any state, [ParseUvarint] has one of two outcomes: it
    returns a non-negative integer, the reader having moved forward by at
    least one byte and not past the end of the input; or it raises
    [EOFError] with the reader at or beyond the end.  It raises nothing
    else and always ends. *)
Theorem ParseUvarint_outcome ReturnDict (s : state) :
  (exists z s', Get ReturnDict N_UVARINT s = (Ok (VInt z), s') /\ 0 <= z
                /\ (pos (st_r s) < pos (st_r s') <= length (buf (st_r s)))%nat)
  \/ (exists s', Get ReturnDict N_UVARINT s = (Raise (Exc EOFError), s')
                 /\ (length (buf (st_r s)) <= pos (st_r s'))%nat).
Proof.
  assert (Get ReturnDict N_UVARINT s = ParseUvarint s) as -> by (destruct ReturnDict; reflexivity).
  unfold ParseUvarint.
  destruct (ParseUvarint_loop_total (S (length (buf (st_r s)))) s 0 0 ltac:(lia)) as [out E].
  rewrite E.
  destruct (ParseUvarint_loop_outcome _ _ _ _ _ (Z.le_refl 0) (Z.le_refl 0) E)
    as [(z & Hz & Hz0 & Hp) | [He Hp]]; destruct out as [[z'|e] s']; cbn [fst snd] in *.
  - injection Hz as ->. left. eauto.
  - discriminate.
  - discriminate.
  - injection He as ->. right. eauto.
Qed.

(** ** Lists *)

Lemma read_obj_int n s :
  - 2 ^ 63 <= n < 2 ^ 63 -> read_obj (Some (VInt n)) s = read (Some n) s.
Proof.
  intros Hn. cbn [read_obj]. unfold bind, lift. cbn [value_index res_bind]. unfold as_ssize_t.
  destruct (Z.leb_spec (- 2 ^ 63) n); [|lia].
  destruct (Z.ltb_spec n (2 ^ 63)); [|lia]. reflexivity.
Qed.

Lemma ParseBool_byte pre b rest ctx :
  ParseBool (mkState (mkBytesIO (pre ++ b :: rest) (length pre)) ctx)
  = (Ok (VBool (negb (byte_to_Z b =? 0))),
     mkState (mkBytesIO (pre ++ b :: rest) (length pre + 1)) ctx).
Proof. unfold ParseBool, bind. rewrite read_one. reflexivity. Qed.

Lemma ParseBool_eof buf ctx :
  ParseBool (mkState (mkBytesIO buf (length buf)) ctx)
  = (Raise (Exc EOFError), mkState (mkBytesIO buf (length buf)) ctx).
Proof. unfold ParseBool, bind. rewrite read_one_eof. reflexivity. Qed.

Lemma repeatM_ParseBool bs :
  forall pre post ctx,
    repeatM (length bs) ParseBool
      (mkState (mkBytesIO (pre ++ bs ++ post) (length pre)) ctx)
    = (Ok (map bool_of_byte bs),
       mkState (mkBytesIO (pre ++ bs ++ post) (length pre + length bs)) ctx).
Proof.
  induction bs as [|b bs IH]; intros pre post ctx.
  - cbn. rewrite Nat.add_0_r. reflexivity.
  - cbn [length repeatM app]. unfold bind at 1. rewrite ParseBool_byte.
    specialize (IH ((pre ++ [b])%list) post ctx).
    rewrite <- !app_assoc in IH. cbn [app] in IH. rewrite length_app in IH. cbn [length] in IH.
    unfold bind. rewrite IH. cbn [map]. unfold ret, bool_of_byte.
    do 3 f_equal. lia.
Qed.

Lemma repeatM_ParseBool_short bs :
  forall k pre ctx,
    (length bs < k)%nat ->
    repeatM k ParseBool (mkState (mkBytesIO (pre ++ bs) (length pre)) ctx)
    = (Raise (Exc EOFError),
       mkState (mkBytesIO (pre ++ bs) (length pre + length bs)) ctx).
Proof.
  induction bs as [|b bs IH]; intros k pre ctx Hk; (destruct k as [|k]; [cbn in Hk; lia|]).
  - cbn [repeatM length]. unfold bind. rewrite app_nil_r, Nat.add_0_r, ParseBool_eof. reflexivity.
  - cbn [repeatM]. unfold bind at 1. rewrite ParseBool_byte.
    specialize (IH k ((pre ++ [b])%list) ctx ltac:(cbn [length] in Hk; lia)).
    rewrite <- !app_assoc in IH. cbn [app] in IH. rewrite length_app in IH. cbn [length] in IH.
    unfold bind. rewrite IH. cbn [length]. do 3 f_equal. lia.
Qed.

(** X4.  A list of [n] booleans with a literal count reads exactly the
    next [n] bytes, one boolean for each byte, false for the zero byte
    only; when fewer bytes remain than the count asks for, it raises
    [EOFError] after reading all that remained. *)
Theorem ParseList_of_Bool ReturnDict (bs pre post : list byte) (ctx : gmap string value) :
  Get ReturnDict (N_LIST (N_CONST (VInt (Z.of_nat (length bs)))) N_BOOL)
    (mkState (mkBytesIO (pre ++ bs ++ post) (length pre)) ctx)
  = (Ok (VList (map bool_of_byte bs)),
     mkState (mkBytesIO (pre ++ bs ++ post) (length pre + length bs)) ctx)
  /\ forall k, Z.of_nat (length bs) < k ->
       Get ReturnDict (N_LIST (N_CONST (VInt k)) N_BOOL)
         (mkState (mkBytesIO (pre ++ bs) (length pre)) ctx)
       = (Raise (Exc EOFError),
          mkState (mkBytesIO (pre ++ bs) (length pre + length bs)) ctx).
Proof.
  split.
  - cbn [Get]. unfold ParseList, ParseNumber, bind, ret, lift. cbn [node_tag value_index].
    rewrite Nat2Z.id.
    pose proof (repeatM_ParseBool bs pre post ctx) as E. unfold ret in E. rewrite E. reflexivity.
  - intros k Hk.
    cbn [Get]. unfold ParseList, ParseNumber, bind, ret, lift. cbn [node_tag value_index].
    rewrite (repeatM_ParseBool_short bs (Z.to_nat k) pre ctx) by lia. reflexivity.
Qed.

Lemma repeatM_length n (elem : M value) :
  forall s xs s', repeatM n elem s = (Ok xs, s') -> length xs = n.
Proof.
  induction n as [|n IH]; intros s xs s' H; cbn [repeatM] in H.
  - unfold ret in H. injection H as <- _. reflexivity.
  - unfold bind in H. destruct (elem s) as [[x|e] s1]; [|discriminate].
    destruct (repeatM n elem s1) as [[ys|e] s2] eqn:E; [|discriminate].
    unfold ret in H. injection H as <- _. cbn [length]. f_equal. eapply IH, E.
Qed.

(** X5.  A list that decodes without error has exactly as many elements
    as its count said, and none when the count is negative. *)
Theorem ParseList_length ReturnDict (count value_ : node) (s s' : state) (x : value)
  (H : Get ReturnDict (N_LIST count value_) s = (Ok x, s')) :
  exists c n xs s1,
    Get ReturnDict count s = (Ok c, s1)
    /\ value_index c = Ok n
    /\ x = VList xs
    /\ Z.of_nat (length xs) = Z.max 0 n.
Proof.
  cbn [Get] in H. unfold ParseList, bind in H.
  destruct (Get ReturnDict count s) as [[c|e] s1]; [|discriminate].
  unfold lift at 1 in H. destruct (node_tag value_) as [t|e]; [|discriminate].
  unfold ret at 1 in H. unfold lift in H.
  destruct (value_index c) as [n|e] eqn:En; [|discriminate].
  destruct (repeatM (Z.to_nat n) (Get ReturnDict value_) s1) as [[xs|e] s2] eqn:E; [|discriminate].
  unfold ret in H. injection H as <- _.
  exists c, n, xs, s1. apply repeatM_length in E.
  split; [reflexivity|]. split; [exact En|]. split; [reflexivity | lia].
Qed.

Lemma ParseList_length_witness :
  exists c n xs s1,
    Get false N_BOOL (mkState (mkBytesIO [x02; x00; x07] 0) ∅) = (Ok c, s1)
    /\ value_index c = Ok n
    /\ VList [VBool false] = VList xs
    /\ Z.of_nat (length xs) = Z.max 0 n.
Proof.
  exact (ParseList_length false N_BOOL N_BOOL
           (mkState (mkBytesIO [x02; x00; x07] 0) ∅)
           (mkState (mkBytesIO [x02; x00; x07] 2) ∅)
           (VList [VBool false]) eq_refl).
Defined.

Lemma ParseList_of_Bool_witness :
  Get false (N_LIST (N_CONST (VInt 3)) N_BOOL) (mkState (mkBytesIO [x00; x01; x02] 0) ∅)
  = (Ok (VList [VBool false; VBool true; VBool true]),
     mkState (mkBytesIO [x00; x01; x02] 3) ∅)
  /\ Get false (N_LIST (N_CONST (VInt 4)) N_BOOL) (mkState (mkBytesIO [x00; x01; x02] 0) ∅)
     = (Raise (Exc EOFError), mkState (mkBytesIO [x00; x01; x02] 3) ∅).
Proof.
  split.
  - exact (proj1 (ParseList_of_Bool false [x00; x01; x02] [] [] ∅)).
  - apply (proj2 (ParseList_of_Bool false [x00; x01; x02] [] [] ∅) 4). reflexivity.
Defined.

Lemma Get_UVARINT_encode ReturnDict V pre post ctx :
  0 <= V ->
  Get ReturnDict N_UVARINT
    (mkState (mkBytesIO (pre ++ uleb128_encode V ++ post) (length pre)) ctx)
  = (Ok (VInt V),
     mkState (mkBytesIO (pre ++ uleb128_encode V ++ post)
                (length pre + length (uleb128_encode V))) ctx).
Proof.
  intros HV. destruct ReturnDict; cbn [Get]; unfold ParseUvarint;
    (rewrite ParseUvarint_loop_encode;
     [rewrite Z.lor_0_l, Z.shiftl_0_r; reflexivity | assumption | lia
     | cbn [st_r buf]; rewrite !length_app; lia]).
Qed.

Lemma ParseInt_one_byte pre b rest ctx :
  ParseInt (PInt 1) (PBool false) (PStr "little")
    (mkState (mkBytesIO (pre ++ b :: rest) (length pre)) ctx)
  = (Ok (VInt (byte_to_Z b)), mkState (mkBytesIO (pre ++ b :: rest) (length pre + 1)) ctx).
Proof.
  unfold ParseInt, bind. cbn [pyobj_value]. rewrite read_obj_int by closed_range.
  rewrite read_one. unfold lift, ret. cbn. rewrite Z.add_0_r. reflexivity.
Qed.

Lemma repeatM_ParseInt_bytes bs :
  forall pre post ctx,
    repeatM (length bs) (ParseInt (PInt 1) (PBool false) (PStr "little"))
      (mkState (mkBytesIO (pre ++ bs ++ post) (length pre)) ctx)
    = (Ok (map (fun b => VInt (byte_to_Z b)) bs),
       mkState (mkBytesIO (pre ++ bs ++ post) (length pre + length bs)) ctx).
Proof.
  induction bs as [|b bs IH]; intros pre post ctx.
  - cbn. rewrite Nat.add_0_r. reflexivity.
  - cbn [length repeatM app]. unfold bind at 1. rewrite ParseInt_one_byte.
    specialize (IH ((pre ++ [b])%list) post ctx).
    rewrite <- !app_assoc in IH. cbn [app] in IH. rewrite length_app in IH. cbn [length] in IH.
    unfold bind. rewrite IH. cbn [map]. unfold ret.
    do 3 f_equal. lia.
Qed.

(** X6.  The schema with one field [List[Uvarint, UInt[8]]], built with
    the exported builders and compiled with the default settings, decodes
    every input made of the LEB128 encoding of [n] followed by [n] bytes to
    the list of those [n] byte values, consumes all of the input, and
    leaves the context empty. *)
Theorem counted_byte_list_decodes :
  exists elem lst st,
    TypeFactory_getitem UInt (PInt 8) = Ok elem
    /\ Uvarint = Ok (B_plain UVARINT)
    /\ TypeFactory_getitem List_ (PTuple [PBase (B_plain UVARINT); PBase elem]) = Ok lst
    /\ CompileStruct [("Items", PBase lst)] "little" "utf-8" None false = Ok st
    /\ forall (bs : list byte) ReturnDict w,
         ParseStruct (SchemaCompiled st)
           (RawBytes (uleb128_encode (Z.of_nat (length bs)) ++ bs))
           ReturnDict "little" "utf-8" None false w
         = (Ok (result_obj ReturnDict
                  [("Items", VList (map (fun b => VInt (byte_to_Z b)) bs))]),
            set_cls_Ctx ReturnDict ∅ w,
            mkBytesIO (uleb128_encode (Z.of_nat (length bs)) ++ bs)
              (length (uleb128_encode (Z.of_nat (length bs)) ++ bs))).
Proof.
  exists (B_INT (PInt 1) PNone (PBool false)),
    (B_LIST (PBase (B_plain UVARINT)) (PBase (B_INT (PInt 1) PNone (PBool false)))),
    [("Items", N_LIST N_UVARINT (N_INT (PInt 1) (PBool false) (PStr "little")))].
  split; [reflexivity|]. split; [reflexivity|].
  split; [reflexivity|]. split; [reflexivity|].
  intros bs ReturnDict w.
  rewrite ParseStruct_compiled. cbn [open_source].
  unfold Parse. cbn [struct_items map fst snd]. unfold bind at 1.
  erewrite Parse_loop_cons_Ok; cycle 1.
  { cbn [Get]. unfold ParseList, bind.
    pose proof (Get_UVARINT_encode ReturnDict (Z.of_nat (length bs)) [] bs ∅
                  (Nat2Z.is_nonneg _)) as E.
    cbn [app length Nat.add Get] in E. rewrite E.
    unfold lift. cbn [node_tag value_index res_bind]. unfold ret at 1.
    rewrite Nat2Z.id.
    pose proof (repeatM_ParseInt_bytes bs (uleb128_encode (Z.of_nat (length bs))) [] ∅) as R.
    rewrite app_nil_r in R.
    rewrite R. unfold ret. reflexivity. }
  cbn [Parse_loop dict_set st_r st_Ctx]. unfold ret.
  rewrite length_app. reflexivity.
Qed.

(** ** Raw bytes and integers at the end of the input *)

Lemma read_some n s :
  read (Some n) s
  = (Ok (if n <? 0 then drop (pos (st_r s)) (buf (st_r s))
         else take (Z.to_nat n) (drop (pos (st_r s)) (buf (st_r s)))),
     mkState (mkBytesIO (buf (st_r s))
                (pos (st_r s)
                 + length (if n <? 0 then drop (pos (st_r s)) (buf (st_r s))
                           else take (Z.to_nat n) (drop (pos (st_r s)) (buf (st_r s))))))
       (st_Ctx s)).
Proof.
  unfold read, BytesIO_read. set (rest := drop (pos (st_r s)) (buf (st_r s))).
  destruct (n <? 0).
  - rewrite firstn_all. reflexivity.
  - rewrite length_take. f_equal. f_equal.
    destruct (Nat.le_ge_cases (Z.to_nat n) (length rest)) as [Hle|Hge].
    + rewrite Nat.min_l by lia. reflexivity.
    + rewrite Nat.min_r by lia. rewrite !take_ge by lia. reflexivity.
Qed.

(** X7.  A raw-bytes field with a literal length [n] never raises: it
    returns the next [n] bytes when the input has them, only the bytes that
    remain when it has fewer, and, because a negative size makes [read]
    read to the end, all the remaining bytes when [n] is negative. *)
Theorem ParseBytes_const_length ReturnDict (n : Z) (s : state)
  (Hn : - 2 ^ 63 <= n < 2 ^ 63) :
  let rest := drop (pos (st_r s)) (buf (st_r s)) in
  let got := if n <? 0 then rest else take (Z.to_nat n) rest in
  Get ReturnDict (N_BYTES (N_CONST (VInt n))) s
  = (Ok (VBytes got),
     mkState (mkBytesIO (buf (st_r s)) (pos (st_r s) + length got)) (st_Ctx s))
  /\ (length got <= length rest)%nat
  /\ (0 <= n -> length got = Nat.min (Z.to_nat n) (length rest)).
Proof.
  intros rest got. split; [|split].
  - cbn [Get]. unfold ParseBytes, ParseNumber, bind. unfold ret at 1.
    rewrite read_obj_int by exact Hn. rewrite read_some. reflexivity.
  - subst got. destruct (n <? 0); [lia | rewrite length_take; lia].
  - intros H0. subst got. destruct (Z.ltb_spec n 0); [lia|]. apply length_take.
Qed.

Lemma ParseBytes_const_length_witness :
  Get false (N_BYTES (N_CONST (VInt 5))) (mkState (mkBytesIO [x01; x02; x03] 1) ∅)
  = (Ok (VBytes [x02; x03]), mkState (mkBytesIO [x01; x02; x03] 3) ∅)
  /\ Get false (N_BYTES (N_CONST (VInt (-1)))) (mkState (mkBytesIO [x01; x02; x03] 1) ∅)
     = (Ok (VBytes [x02; x03]), mkState (mkBytesIO [x01; x02; x03] 3) ∅).
Proof.
  split.
  - apply (ParseBytes_const_length false 5 (mkState (mkBytesIO [x01; x02; x03] 1) ∅)).
    closed_range.
  - apply (ParseBytes_const_length false (-1) (mkState (mkBytesIO [x01; x02; x03] 1) ∅)).
    closed_range.
Defined.



Lemma bytes_hex_length bs : String.length (bytes_hex bs) = (2 * length bs)%nat.
Proof.
  induction bs as [|b bs IH]; [reflexivity|].
  cbn [bytes_hex String.length length]. rewrite IH. lia.
Qed.

(** X9.  On the same length node and state, the hex-mode bytes handler
    returns the [hex()] text of what the raw-bytes handler returns, two
    characters for each byte, in the same final state, and it raises
    whenever the raw-bytes handler raises, with the same exception. *)
Theorem ParseBytes2_is_hex_of_ParseBytes ReturnDict (lenParams : node) (s : state) :
  match Get ReturnDict (N_BYTES lenParams) s with
  | (Ok (VBytes bs), s') =>
      Get ReturnDict (N_BYTES2 lenParams) s = (Ok (VStr (bytes_hex bs)), s')
      /\ String.length (bytes_hex bs) = (2 * length bs)%nat
  | (Ok _, _) => False
  | (Raise e, s') => Get ReturnDict (N_BYTES2 lenParams) s = (Raise e, s')
  end.
Proof.
  cbn [Get]. unfold ParseBytes, ParseBytes2, bind.
  destruct (Get ReturnDict lenParams s) as [[n|e] s1]; [|reflexivity].
  destruct (read_obj (Some n) s1) as [[bs|e] s2]; [|reflexivity].
  unfold ret. split; [reflexivity | apply bytes_hex_length].
Qed.

(** ** The compiler *)

Lemma CompileStruct_items_names compile cls :
  forall st,
    CompileStruct_items compile cls = Ok st ->
    map fst st = List.filter (fun n => negb (is_dunder n)) (map fst cls).
Proof.
  induction cls as [|[n v] cls IH]; intros st H; cbn [CompileStruct_items] in H.
  - injection H as <-. reflexivity.
  - cbn [map fst List.filter]. destruct (is_dunder n); cbn [negb].
    + apply IH, H.
    + unfold res_bind in H. destruct (compile v) as [c|e]; [|discriminate].
      destruct (CompileStruct_items compile cls) as [cs|e]; [|discriminate].
      injection H as <-. cbn [map fst]. f_equal. apply IH. reflexivity.
Qed.

(** X10.  A compiled schema has exactly the fields of the class whose
    names are not of the form [__x__], in the order of the class. *)
Theorem CompileStruct_field_names (cls : list (string * pyobj)) (order encoding : string)
  (order2 : option string) (bytesToHex : bool) (st : list (string * node))
  (H : CompileStruct cls order encoding order2 bytesToHex = Ok st) :
  map fst st = List.filter (fun n => negb (is_dunder n)) (map fst cls).
Proof. unfold CompileStruct in H. eapply CompileStruct_items_names, H. Qed.

Lemma CompileStruct_field_names_witness :
  map fst [("A", N_CONST (VInt 1)); ("B", N_CONST (VStr "x"))]
  = List.filter (fun n => negb (is_dunder n))
      (map fst [("__module__", PStr "m"); ("A", PInt 1); ("__doc__", PNone);
                ("B", PStr "x")]).
Proof.
  exact (CompileStruct_field_names
           [("__module__", PStr "m"); ("A", PInt 1); ("__doc__", PNone); ("B", PStr "x")]
           "little" "utf-8" None false
           [("A", N_CONST (VInt 1)); ("B", N_CONST (VStr "x"))] eq_refl).
Defined.

Lemma CompileStruct_items_app compile pre post :
  CompileStruct_items compile (pre ++ post)
  = match CompileStruct_items compile pre with
    | Ok a => match CompileStruct_items compile post with
              | Ok b => Ok (a ++ b)%list
              | Raise e => Raise e
              end
    | Raise e => Raise e
    end.
Proof.
  induction pre as [|[n v] pre IH]; cbn [app CompileStruct_items].
  - destruct (CompileStruct_items compile post); reflexivity.
  - destruct (is_dunder n); [exact IH|].
    unfold res_bind. destruct (compile v) as [c|e]; [|reflexivity].
    rewrite IH. destruct (CompileStruct_items compile pre); [|reflexivity].
    destruct (CompileStruct_items compile post); reflexivity.
Qed.

(** X11.  When the fields before it compile, a field whose value is
    [None], a tuple, a list or a function makes [CompileStruct] raise
    [TypeError], whatever fields follow. *)
Theorem CompileStruct_rejects (pre post : list (string * pyobj)) (n : string) (v : pyobj)
  (order encoding : string) (order2 : option string) (bytesToHex : bool)
  (st : list (string * node))
  (Hpre : CompileStruct pre order encoding order2 bytesToHex = Ok st)
  (Hname : is_dunder n = false)
  (Hv : not_a_field v = true) :
  CompileStruct (pre ++ (n, v) :: post) order encoding order2 bytesToHex = Raise TypeError.
Proof.
  unfold CompileStruct in *. rewrite CompileStruct_items_app, Hpre.
  cbn [CompileStruct_items]. rewrite Hname.
  destruct v; try discriminate; reflexivity.
Qed.

Lemma CompileStruct_rejects_witness :
  CompileStruct [("A", PInt 1); ("B", PNone); ("C", PInt 2)] "little" "utf-8" None false
  = Raise TypeError.
Proof.
  exact (CompileStruct_rejects [("A", PInt 1)] [("C", PInt 2)] "B" PNone
           "little" "utf-8" None false [("A", N_CONST (VInt 1))] eq_refl eq_refl eq_refl).
Defined.

(** X12.  Calling the entry point on a class is calling it on the
    schema [CompileStruct] gives for that class; and on a compiled schema
    the order, encoding and hex arguments of the call are ignored. *)
Theorem ParseStruct_class_is_compile_then_decode (cls : list (string * pyobj))
  (order encoding : string) (order2 : option string) (bytesToHex : bool)
  (st : list (string * node))
  (H : CompileStruct cls order encoding order2 bytesToHex = Ok st) :
  forall r ReturnDict w order' encoding' order2' bytesToHex',
    ParseStruct (SchemaClass cls) r ReturnDict order encoding order2 bytesToHex w
    = ParseStruct (SchemaCompiled st) r ReturnDict order' encoding' order2' bytesToHex' w.
Proof.
  intros. unfold ParseStruct. cbn [compile_schema].
  assert (CompileStruct cls order encoding
            (Some match order2 with
                  | Some o => o
                  | None => if String.eqb order "big" then ">" else "<"
                  end) bytesToHex = Ok st) as ->; [|reflexivity].
  rewrite <- H. unfold CompileStruct. destruct order2; reflexivity.
Qed.

Lemma ParseStruct_class_is_compile_then_decode_witness :
  ParseStruct (SchemaClass [("A", PInt 7)]) (RawBytes []) false "little" "utf-8" None false
    (mkWorld ∅ ∅)
  = ParseStruct (SchemaCompiled [("A", N_CONST (VInt 7))]) (RawBytes []) false
      "big" "ascii" (Some ">") true (mkWorld ∅ ∅).
Proof.
  exact (ParseStruct_class_is_compile_then_decode [("A", PInt 7)] "little" "utf-8" None false
           [("A", N_CONST (VInt 7))] eq_refl (RawBytes []) false (mkWorld ∅ ∅)
           "big" "ascii" (Some ">") true).
Defined.

Section pyobj_induction.
Variable P : pyobj -> Prop.
Hypothesis H_None : P PNone.
Hypothesis H_Int : forall z, P (PInt z).
Hypothesis H_Bool : forall b, P (PBool b).
Hypothesis H_Str : forall s, P (PStr s).
Hypothesis H_Tuple : forall xs, Forall P xs -> P (PTuple xs).
Hypothesis H_List : forall xs, Forall P xs -> P (PList xs).
Hypothesis H_Callable : forall f, P (PCallable f).
Hypothesis H_Class : forall d, Forall (fun nv => P (snd nv)) d -> P (PClass d).
Hypothesis H_Base : forall b, BaseType_all P b -> P (PBase b).

Lemma pyobj_nested_ind : forall v, P v.
Proof.
  fix IH 1. intros [ |z|b|s|xs|xs|f|d|b].
  - apply H_None.
  - apply H_Int.
  - apply H_Bool.
  - apply H_Str.
  - apply H_Tuple. induction xs as [|x xs IHxs]; constructor; [apply IH | exact IHxs].
  - apply H_List. induction xs as [|x xs IHxs]; constructor; [apply IH | exact IHxs].
  - apply H_Callable.
  - apply H_Class. induction d as [|[n x] d IHd]; constructor; [apply IH | exact IHd].
  - apply H_Base. destruct b as [x y z|x y z|x y|x|x|x y|l|x y|x y|x y|x|t]; cbn [BaseType_all];
      try (repeat split; apply IH).
    induction l as [|x l IHl]; constructor; [apply IH | exact IHl].
Qed.
End pyobj_induction.

Lemma mapM_Forall {E A B} (f : A -> res E B) (Q : B -> Prop) xs :
  Forall (fun x => forall y, f x = Ok y -> Q y) xs ->
  forall ys, mapM f xs = Ok ys -> Forall Q ys.
Proof.
  induction 1 as [|x xs Hx _ IH]; intros ys H; cbn [mapM] in H.
  - injection H as <-. constructor.
  - unfold res_bind in H. destruct (f x) as [y|e] eqn:Ey; [|discriminate].
    destruct (mapM f xs) as [zs|e]; [|discriminate].
    injection H as <-. constructor; [apply Hx; reflexivity | apply IH; reflexivity].
Qed.

Lemma CompileStruct_items_Forall compile (Q : node -> Prop) d :
  Forall (fun nv => forall y, compile (snd nv) = Ok y -> Q y) d ->
  forall st, CompileStruct_items compile d = Ok st -> Forall (fun nv => Q (snd nv)) st.
Proof.
  induction 1 as [|[n v] d Hx _ IH]; intros st H; cbn [CompileStruct_items] in H.
  - injection H as <-. constructor.
  - destruct (is_dunder n); [apply IH, H|].
    unfold res_bind in H. cbn [snd] in Hx. destruct (compile v) as [y|e] eqn:Ey; [|discriminate].
    destruct (CompileStruct_items compile d) as [zs|e]; [|discriminate].
    injection H as <-. constructor; [apply Hx; reflexivity | apply IH; reflexivity].
Qed.

Section bytes_mode_invariant.
Variables (order order2 encoding : string) (bytesToHex : bool).

Let compiles_in_mode (v : pyobj) : Prop :=
  forall n, CompileType v order order2 encoding bytesToHex = Ok n ->
            bytes_mode bytesToHex n = true.

Let items_in_mode (v : pyobj) : Prop :=
  match v with
  | PTuple xs | PList xs => Forall compiles_in_mode xs
  | _ => True
  end.

Lemma CompileType_bytes_mode_items v : compiles_in_mode v /\ items_in_mode v.
Proof.
  induction v as [ |z|b|s|xs IH|xs IH|f|d IH|b IH] using pyobj_nested_ind;
    (split; [intros n H; cbn [CompileType] in H; try discriminate;
             try (injection H as <-; reflexivity) | cbn [items_in_mode]; try exact I]).
  - eapply Forall_impl; [exact IH|]. intros x [Hx _]. exact Hx.
  - eapply Forall_impl; [exact IH|]. intros x [Hx _]. exact Hx.
  - unfold res_bind in H.
    destruct (CompileStruct_items _ d) as [st|e] eqn:E; [|discriminate].
    injection H as <-. cbn [bytes_mode]. apply forallb_forall. intros nv Hin.
    eapply CompileStruct_items_Forall in E;
      [|eapply Forall_impl; [exact IH|]; intros x [Hx _]; exact Hx].
    rewrite Forall_forall in E. apply E. apply list_elem_of_In. exact Hin.
  - destruct b as [x y z|x y z|x y|x|x|x y|l|x y|x y|x y|x|t]; cbn [BaseType_all] in IH;
      unfold res_bind in H.
    + injection H as <-. reflexivity.
    + injection H as <-. reflexivity.
    + destruct IH as [[IHx _] _].
      destruct (CompileType x _ _ _ _) as [c|e] eqn:E; [|discriminate].
      injection H as <-. cbn [bytes_mode]. apply IHx. exact E.
    + destruct IH as [IHx _].
      destruct (CompileType x _ _ _ _) as [c|e] eqn:E; [|discriminate].
      injection H as <-. destruct bytesToHex; cbn [bytes_mode negb andb]; apply IHx; exact E.
    + injection H as <-. reflexivity.
    + destruct IH as [[IHx _] [IHy _]].
      destruct (CompileType x _ _ _ _) as [c|e] eqn:Ex; [|discriminate].
      destruct (CompileType y _ _ _ _) as [c'|e] eqn:Ey; [|discriminate].
      injection H as <-. cbn [bytes_mode]. rewrite (IHx c Ex), (IHy c' Ey). reflexivity.
    + destruct (mapM _ l) as [cs|e] eqn:E; [|discriminate].
      injection H as <-. cbn [bytes_mode]. apply forallb_forall. intros c Hin.
      eapply mapM_Forall in E;
        [|eapply Forall_impl; [exact IH|]; intros x [Hx _]; exact Hx].
      rewrite Forall_forall in E. apply E. apply list_elem_of_In. exact Hin.
    + destruct IH as [_ [IHy _]].
      destruct (CompileType y _ _ _ _) as [c|e] eqn:Ey; [|discriminate].
      injection H as <-. cbn [bytes_mode]. apply IHy. exact Ey.
    + destruct IH as [[IHx _] [_ IHy]].
      destruct (CompileType x _ _ _ _) as [c|e] eqn:Ex; [|discriminate].
      assert (forall rs,
                 match y with
                 | PTuple xs | PList xs =>
                     mapM (fun v' => CompileType v' order order2 encoding bytesToHex) xs
                 | PStr s =>
                     Ok (map (fun c => N_CONST (VStr (String c EmptyString)))
                           (list_ascii_of_string s))
                 | _ => Raise TypeError
                 end = Ok rs -> forallb (bytes_mode bytesToHex) rs = true) as Hrs.
      { intros rs Hy. apply forallb_forall. intros r Hr.
        destruct y; try discriminate; cbn [items_in_mode] in IHy.
        - injection Hy as <-. apply in_map_iff in Hr as (a & <- & _). reflexivity.
        - eapply mapM_Forall in Hy; [|exact IHy].
          rewrite Forall_forall in Hy. apply Hy. apply list_elem_of_In. exact Hr.
        - eapply mapM_Forall in Hy; [|exact IHy].
          rewrite Forall_forall in Hy. apply Hy. apply list_elem_of_In. exact Hr. }
      destruct (match y with PTuple _ => _ | _ => _ end) as [rs|e] eqn:Ey; [|discriminate].
      injection H as <-. cbn [bytes_mode]. rewrite (IHx c Ex), (Hrs rs eq_refl). reflexivity.
    + destruct IH as [[IHx _] _].
      destruct (CompileType x _ _ _ _) as [c|e] eqn:Ex; [|discriminate].
      injection H as <-. cbn [bytes_mode]. apply IHx. exact Ex.
    + destruct IH as [IHx _].
      destruct (CompileType x _ _ _ _) as [c|e] eqn:Ex; [|discriminate].
      injection H as <-. cbn [bytes_mode]. apply IHx. exact Ex.
    + repeat match type of H with (if ?c then _ else _) = _ => destruct c end;
        injection H as <-; reflexivity.
Qed.
End bytes_mode_invariant.

(** X13.  One compile call puts every bytes field of the schema, at any
    depth, in the same mode: all hex when [bytesToHex] is set, all raw
    otherwise. *)
Theorem CompileStruct_bytes_mode (cls : list (string * pyobj)) (order encoding : string)
  (order2 : option string) (bytesToHex : bool) (st : list (string * node))
  (H : CompileStruct cls order encoding order2 bytesToHex = Ok st) :
  bytes_mode bytesToHex (N_STRUCT st) = true.
Proof.
  unfold CompileStruct in H. cbn [bytes_mode]. apply forallb_forall. intros nv Hin.
  eapply (CompileStruct_items_Forall _ (fun y => bytes_mode bytesToHex y = true)) in H.
  - rewrite Forall_forall in H. apply (H nv). apply list_elem_of_In. exact Hin.
  - apply Forall_forall. intros x _ y Hy.
    eapply (proj1 (CompileType_bytes_mode_items _ _ _ _ _)), Hy.
Qed.

Lemma CompileStruct_bytes_mode_witness :
  bytes_mode true
    (N_STRUCT [("A", N_BYTES2 (N_CONST (VInt 2)));
               ("B", N_STRUCT [("C", N_LIST (N_CONST (VInt 1)) (N_BYTES2 (N_CONST (VInt 1))))])])
  = true.
Proof.
  exact (CompileStruct_bytes_mode
           [("A", PBase (B_BYTES (PInt 2)));
            ("B", PClass [("C", PBase (B_LIST (PInt 1) (PBase (B_BYTES (PInt 1)))))])]
           "little" "utf-8" None true _ eq_refl).
Defined.

(** ** Back-references and the entry point *)

(** X14.  The outcome of a call of the entry point and the reader it
    leaves do not depend on what the contexts held before the call, and
    the context of the instance the call does not use is left as it
    was. *)
Theorem ParseStruct_independent_of_old_context (struct : schema) (r : source)
  (ReturnDict : bool) (order encoding : string) (order2 : option string) (bytesToHex : bool)
  (w w' : world) :
  fst (fst (ParseStruct struct r ReturnDict order encoding order2 bytesToHex w))
  = fst (fst (ParseStruct struct r ReturnDict order encoding order2 bytesToHex w'))
  /\ snd (ParseStruct struct r ReturnDict order encoding order2 bytesToHex w)
     = snd (ParseStruct struct r ReturnDict order encoding order2 bytesToHex w')
  /\ cls_Ctx (negb ReturnDict)
       (snd (fst (ParseStruct struct r ReturnDict order encoding order2 bytesToHex w)))
     = cls_Ctx (negb ReturnDict) w.
Proof.
  unfold ParseStruct.
  destruct (compile_schema struct order encoding order2 bytesToHex) as [st|e];
    [|repeat split].
  rewrite !cls_Ctx_set.
  destruct (Parse ReturnDict st _) as [[v|e] s]; cbn [fst snd];
    (split; [reflexivity|]); (split; [reflexivity|]); destruct ReturnDict; reflexivity.
Qed.




(** ** Records *)

Lemma dict_set_fresh obj n vv :
  ~ In n (map fst obj) -> dict_set obj n vv = (obj ++ [(n, vv)])%list.
Proof.
  induction obj as [|[k x] obj IH]; intros Hn; [reflexivity|].
  cbn [dict_set app]. cbn [map fst In] in Hn.
  destruct (String.eqb_spec k n) as [->|_]; [tauto|].
  rewrite IH by tauto. reflexivity.
Qed.

Lemma Parse_loop_names items :
  forall obj s obj' s',
    NoDup (map fst obj ++ map (fun it => fst (fst it)) items) ->
    Parse_loop items obj s = (Ok obj', s') ->
    map fst obj' = (map fst obj ++ map (fun it => fst (fst it)) items)%list.
Proof.
  induction items as [|[[n v] func] items IH]; intros obj s obj' s' Hnd H; cbn [Parse_loop] in H.
  - unfold ret in H. injection H as <- _. cbn [map]. rewrite app_nil_r. reflexivity.
  - unfold bind at 1 in H.
    destruct (try_except_RuntimeError v _ s) as [[vv|e] s1]; [|discriminate].
    cbn [map fst] in *.
    assert (Hfresh : ~ In n (map fst obj)).
    { intros Hin. apply NoDup_app in Hnd as (_ & Hdis & _).
      apply (Hdis n); [apply list_elem_of_In; exact Hin | left]. }
    apply IH in H.
    + rewrite H, dict_set_fresh, map_app by exact Hfresh. cbn [map fst].
      rewrite <- app_assoc. reflexivity.
    + rewrite dict_set_fresh, map_app by exact Hfresh. cbn [map fst].
      rewrite <- app_assoc. exact Hnd.
Qed.

(** X16.  When the field names of a schema are distinct, as in a Python
    dict, the object a successful [Parse] returns has exactly the fields of
    the schema, in the order of the schema. *)
Theorem Parse_result_fields ReturnDict (struct : list (string * node)) (s s' : state)
  (o : value)
  (Hnames : NoDup (map fst struct))
  (H : Parse ReturnDict struct s = (Ok o, s')) :
  exists obj, o = result_obj ReturnDict obj /\ map fst obj = map fst struct.
Proof.
  apply Parse_Ok_inv in H as (obj & Hloop & ->).
  exists obj. split; [reflexivity|].
  apply Parse_loop_names in Hloop.
  - rewrite Hloop. unfold struct_items. rewrite map_map. reflexivity.
  - unfold struct_items. rewrite map_map. exact Hnames.
Qed.

Lemma Parse_result_fields_witness :
  exists obj,
    VDict [("B", VInt 2); ("A", VBool true)] = result_obj true obj
    /\ map fst obj = map fst [("B", N_CONST (VInt 2)); ("A", N_BOOL)].
Proof.
  apply (Parse_result_fields true [("B", N_CONST (VInt 2)); ("A", N_BOOL)]
           (mkState (mkBytesIO [x09] 0) ∅)
           (mkState (mkBytesIO [x09] 1) (<["A" := VBool true]> (<["B" := VInt 2]> ∅)))).
  - apply NoDup_ListNoDup.
    constructor; [cbn; intros [E|[]]; discriminate|].
    constructor; [intros []|constructor].
  - reflexivity.
Defined.

(** X17.  When a field inside a nested record fails, the exception that
    leaves the outer [Parse] carries the node of the nested record, and its
    context is the exception of the inner [Parse], which carries the node
    of the failing field. *)
Theorem Parse_nested_failure ReturnDict (pre post ipre ipost : list (string * node))
  (n m : string) (v : node) (s s1 s2 s3 : state) (o o' : value) (e : exception)
  (Hpre : Parse ReturnDict pre s = (Ok o, s1))
  (Hipre : Parse ReturnDict ipre s1 = (Ok o', s2))
  (Hfail : Get ReturnDict v s2 = (Raise e, s3)) :
  Parse ReturnDict (pre ++ (n, N_STRUCT (ipre ++ (m, v) :: ipost)) :: post) s
  = (Raise (RuntimeError (N_STRUCT (ipre ++ (m, v) :: ipost)) (RuntimeError v e)), s3).
Proof.
  eapply Parse_app_failure; [exact Hpre|].
  rewrite Get_STRUCT. eapply Parse_app_failure; eassumption.
Qed.

Lemma Parse_nested_failure_witness :
  Parse false [("A", N_CONST (VInt 1)); ("B", N_STRUCT [("C", N_CONST (VInt 2)); ("D", N_BOOL)])]
    (mkState (mkBytesIO [] 0) ∅)
  = (Raise (RuntimeError (N_STRUCT [("C", N_CONST (VInt 2)); ("D", N_BOOL)])
              (RuntimeError N_BOOL (Exc EOFError))),
     mkState (mkBytesIO [] 0) (<["C" := VInt 2]> (<["A" := VInt 1]> ∅))).
Proof.
  apply (Parse_nested_failure false [("A", N_CONST (VInt 1))] [] [("C", N_CONST (VInt 2))] []
           "B" "D" N_BOOL (mkState (mkBytesIO [] 0) ∅)
           (mkState (mkBytesIO [] 0) (<["A" := VInt 1]> ∅))
           (mkState (mkBytesIO [] 0) (<["C" := VInt 2]> (<["A" := VInt 1]> ∅)))
           (mkState (mkBytesIO [] 0) (<["C" := VInt 2]> (<["A" := VInt 1]> ∅)))
           (VObj [("A", VInt 1)]) (VObj [("C", VInt 2)]) (Exc EOFError));
    reflexivity.
Defined.

(** ** Derived values *)

Lemma mapM_CompileType_ints order order2 encoding bytesToHex zs :
  mapM (fun v => CompileType v order order2 encoding bytesToHex) (map PInt zs)
  = Ok (map (fun z => N_CONST (VInt z)) zs).
Proof.
  induction zs as [|z zs IH]; [reflexivity|].
  cbn [map mapM CompileType]. unfold res_bind at 1. unfold res_bind. rewrite IH. reflexivity.
Qed.

Lemma sequenceM_constants ReturnDict xs s :
  sequenceM (map (Get ReturnDict) (map N_CONST xs)) s = (Ok xs, s).
Proof.
  induction xs as [|x xs IH]; [reflexivity|].
  cbn [map sequenceM Get]. unfold bind, ParseNumber. unfold ret at 1. rewrite IH. reflexivity.
Qed.

(** X18.  [Func[f, [z1, ..., zn]]] with integer literals builds and
    compiles, and decoding it calls [f] on the literals in order without
    touching the reader or the context: it returns what [f] returns and
    raises what [f] raises. *)
Theorem Func_builder_calls_with_arguments (f : callable) (zs : list Z)
  (order order2 encoding : string) (bytesToHex : bool) :
  exists b n,
    TypeFactory_getitem Func (PTuple [PCallable f; PList (map PInt zs)]) = Ok b
    /\ CompileType (PBase b) order order2 encoding bytesToHex = Ok n
    /\ forall ReturnDict s,
         Get ReturnDict n s
         = match f (map VInt zs) with
           | Ok v => (Ok v, s)
           | Raise e => (Raise (Exc e), s)
           end.
Proof.
  exists (B_FUNC (PCallable f) (PBase (B_GROUP (map PInt zs)))),
    (N_FUNC (PCallable f) (N_GROUP (map (fun z => N_CONST (VInt z)) zs))).
  split; [reflexivity|]. split.
  - cbn [CompileType]. unfold res_bind. rewrite mapM_CompileType_ints. reflexivity.
  - intros ReturnDict s. cbn [Get]. unfold ParseFunc, ParseGroup, bind.
    rewrite <- (map_map VInt N_CONST), sequenceM_constants.
    unfold ret, lift. cbn [star_args call]. destruct (f (map VInt zs)); reflexivity.
Qed.

(** ** Seeking *)








(** X22.  [Match[f, params, results]] with integer literals builds and
    compiles to a node whose condition is [f] applied to the params: when
    [f] returns the index [i] the node decodes as result [i], an index at
    or beyond the number of results raises [IndexError], and what [f]
    raises is raised. *)
Theorem Match_builder_selects (f : callable) (zs rs : list Z)
  (order order2 encoding : string) (bytesToHex : bool) :
  exists b n,
    TypeFactory_getitem Match
      (PTuple [PCallable f; PList (map PInt zs); PList (map PInt rs)]) = Ok b
    /\ CompileType (PBase b) order order2 encoding bytesToHex = Ok n
    /\ (forall ReturnDict s i r,
          f (map VInt zs) = Ok (VInt i) ->
          0 <= i ->
          nth_error rs (Z.to_nat i) = Some r ->
          Get ReturnDict n s = (Ok (VInt r), s))
    /\ (forall ReturnDict s i,
          f (map VInt zs) = Ok (VInt i) ->
          Z.of_nat (length rs) <= i ->
          Get ReturnDict n s = (Raise (Exc IndexError), s))
    /\ (forall ReturnDict s e,
          f (map VInt zs) = Raise e ->
          Get ReturnDict n s = (Raise (Exc e), s)).
Proof.
  exists (B_MATCH (PBase (B_FUNC (PCallable f) (PBase (B_GROUP (map PInt zs)))))
            (PList (map PInt rs))),
    (N_MATCH (N_FUNC (PCallable f) (N_GROUP (map (fun z => N_CONST (VInt z)) zs)))
       (map (fun z => N_CONST (VInt z)) rs)).
  split; [reflexivity|]. split.
  { cbn [CompileType]. unfold res_bind. rewrite !mapM_CompileType_ints. reflexivity. }
  assert (Hcond : forall ReturnDict s,
             Get ReturnDict (N_FUNC (PCallable f) (N_GROUP (map (fun z => N_CONST (VInt z)) zs))) s
             = match f (map VInt zs) with
               | Ok v => (Ok v, s)
               | Raise e => (Raise (Exc e), s)
               end).
  { intros ReturnDict s. cbn [Get]. unfold ParseFunc, ParseGroup, bind.
    rewrite <- (map_map VInt N_CONST), sequenceM_constants.
    unfold ret, lift. cbn [star_args call]. destruct (f (map VInt zs)); reflexivity. }
  split; [|split].
  - intros ReturnDict s i r Hf Hi Hr.
    cbn [Get] in *. unfold ParseMatch, bind. rewrite Hcond, Hf.
    unfold lift. cbn [value_index]. rewrite list_getitem_map. unfold list_getitem.
    rewrite length_map.
    assert (Z.to_nat i < length rs)%nat by (apply nth_error_Some; congruence).
    destruct (Z.leb_spec 0 i); [|lia]. destruct (Z.ltb_spec i (Z.of_nat (length rs))); [|lia].
    cbn [andb]. rewrite nth_error_map, Hr. reflexivity.
  - intros ReturnDict s i Hf Hi.
    cbn [Get] in *. unfold ParseMatch, bind. rewrite Hcond, Hf.
    unfold lift. cbn [value_index]. rewrite list_getitem_map. unfold list_getitem.
    rewrite length_map.
    destruct (Z.leb_spec 0 i); [|lia]. destruct (Z.ltb_spec i (Z.of_nat (length rs))); [lia|].
    destruct (Z.leb_spec (- Z.of_nat (length rs)) i); [|lia].
    destruct (Z.ltb_spec i 0); [lia|]. reflexivity.
  - intros ReturnDict s e Hf.
    cbn [Get] in *. unfold ParseMatch, bind. rewrite Hcond, Hf. reflexivity.
Qed.

Lemma Match_builder_selects_witness :
  exists b n,
    TypeFactory_getitem Match
      (PTuple [PCallable (fun args => match args with
                                      | [VInt a; VInt c] => Ok (VInt (a + c))
                                      | _ => Raise TypeError
                                      end);
               PList (map PInt [0; 1]); PList (map PInt [10; 20; 30])]) = Ok b
    /\ CompileType (PBase b) "little" "<" "utf-8" false = Ok n
    /\ Get false n (mkState (mkBytesIO [] 0) ∅) = (Ok (VInt 20), mkState (mkBytesIO [] 0) ∅).
Proof.
  destruct (Match_builder_selects
              (fun args => match args with
                           | [VInt a; VInt c] => Ok (VInt (a + c))
                           | _ => Raise TypeError
                           end) [0; 1] [10; 20; 30] "little" "<" "utf-8" false)
    as (b & n & Hb & Hn & Hsel & _).
  exists b, n. split; [exact Hb|]. split; [exact Hn|].
  apply (Hsel false _ 1 20); [reflexivity | lia | reflexivity].
Defined.
